(** * realm-js: schema normalization and collection adapters

    A shallow embedding of

    - [packages/realm/src/schema/normalize.js] (module [Schema]),
    - the [List] adapter, [List.js] (module [ListAdapter]),
    - the notification wrapper of [Dictionary.js] (module [DictionaryAdapter]),

    together with the properties their specification states about them.

    JavaScript objects are finite maps from property keys to values
    ([gmap string JsValue]); an exception is the [Throw] case of [Result];
    code that mutates the engine's list threads an explicit state. *)

From Equations Require Import Equations.
From stdpp Require Import gmap strings list list_monad fin_maps pretty.

Open Scope string_scope.
Open Scope list_scope.

(** ** The JavaScript values the embedded code handles *)

Inductive JsValue :=
| JsUndefined
| JsNull
| JsBool (b : bool)
| JsNumber (n : Z)
| JsString (s : string).

Global Instance JsValue_eq_dec : EqDecision JsValue.
Proof. solve_decision. Defined.

Global Instance JsValue_inhabited : Inhabited JsValue := populate JsUndefined.

(** Truthiness, as [!!v], [a || b] and [cond ? x : y] see it. *)
Definition truthy (v : JsValue) : bool :=
  match v with
  | JsUndefined | JsNull => false
  | JsBool b => b
  | JsNumber n => bool_decide (n ≠ 0%Z)
  | JsString s => bool_decide (s ≠ "")
  end.

(** [ToString], as a template literal and a property key apply it. *)
Definition toString (v : JsValue) : string :=
  match v with
  | JsUndefined => "undefined"
  | JsNull => "null"
  | JsBool true => "true"
  | JsBool false => "false"
  | JsNumber n => pretty n
  | JsString s => s
  end.

(** [typeof v] *)
Definition typeof (v : JsValue) : string :=
  match v with
  | JsUndefined => "undefined"
  | JsNull => "object"
  | JsBool _ => "boolean"
  | JsNumber _ => "number"
  | JsString _ => "string"
  end.

(** [a || b] *)
Definition js_or (a b : JsValue) : JsValue := if truthy a then a else b.

(** [o.k]: a missing property reads as [undefined]. *)
Definition get (o : gmap string JsValue) (k : string) : JsValue :=
  default JsUndefined (o !! k).

(** [String.prototype.endsWith] and [substring(0, n)]. Strings are sequences
    of code units; every suffix the code looks for is ASCII. *)
Definition endsWith (s suffix : string) : bool :=
  if decide (String.length suffix ≤ String.length s)%nat
  then bool_decide
         (String.substring (String.length s - String.length suffix)
            (String.length suffix) s = suffix)
  else false.

Definition dropEnd (n : nat) (s : string) : string :=
  String.substring 0 (String.length s - n) s.

(** ** Objects with ordered keys

    Where the code enumerates an object ([Object.entries]) the object is the
    list of its entries, in insertion order and with one entry per key.
    (JavaScript lists keys that are array indices first; that reordering is
    left out: property names are identifiers.) *)

(** [o[k] = v] *)
Fixpoint assign {A} (k : string) (v : A) (o : list (string * A)) : list (string * A) :=
  match o with
  | [] => [(k, v)]
  | (k', v') :: o' => if decide (k = k') then (k, v) :: o' else (k', v') :: assign k v o'
  end.

(** [Object.fromEntries(entries)] *)
Definition fromEntries {A} (entries : list (string * A)) : list (string * A) :=
  foldl (λ o kv, assign kv.1 kv.2 o) [] entries.

(** [o[k]] on such an object *)
Fixpoint getEntry {A} (k : string) (o : list (string * A)) : option A :=
  match o with
  | [] => None
  | (k', v) :: o' => if decide (k = k') then Some v else getEntry k o'
  end.

(** ** Exceptions *)

Inductive Exception :=
| Error (message : string)           (* [throw new Error(message)] *)
| AssertionError (message : string)  (* a failed [assert(cond, message)] *)
| TypeError (message : string)       (* raised by the runtime *)
| TransactionStateError              (* a failed [assert.inTransaction] *)
| EngineError (message : string).    (* raised by the storage engine *)

Global Instance Exception_eq_dec : EqDecision Exception.
Proof. solve_decision. Defined.

Inductive Result (A : Type) :=
| Ok (a : A)
| Throw (e : Exception).
Global Arguments Ok {A} a.
Global Arguments Throw {A} e.

Global Instance Result_ret : MRet Result := λ A a, Ok a.
Global Instance Result_bind : MBind Result := λ A B f m,
  match m with
  | Ok a => f a
  | Throw e => Throw e
  end.
Global Instance Result_fmap : FMap Result := λ A B f m,
  match m with
  | Ok a => Ok (f a)
  | Throw e => Throw e
  end.

Global Instance Result_eq_dec `{EqDecision A} : EqDecision (Result A).
Proof. solve_decision. Defined.

(** Modelled from the spec: [assert] of "../internal" is not part of the
    sources at hand; a failed assertion raises with the given message. *)
Definition assert (cond : bool) (message : string) : Result unit :=
  if cond then Ok () else Throw (AssertionError message).

Definition inspect {A} (a : A) : {b | a = b} := exist _ a eq_refl.

Lemma length_substring (n m : nat) (s : string) :
  (String.length (String.substring n m s) ≤ m)%nat.
Proof.
  revert n m. induction s as [|c s IH]; intros [|n] [|m]; simpl; try lia.
  - specialize (IH 0 m). lia.
  - apply IH.
  - apply IH.
Qed.

Lemma endsWith_length (s suffix : string) :
  endsWith s suffix = true → (String.length suffix ≤ String.length s)%nat.
Proof. unfold endsWith. by case_decide. Qed.

Lemma length_dropEnd (n : nat) (s : string) :
  (0 < n → n ≤ String.length s →
   String.length (dropEnd n s) < String.length s)%nat.
Proof.
  intros Hn Hs. unfold dropEnd.
  pose proof (length_substring 0 (String.length s - n) s). lia.
Qed.

(** The characters of a suffix are the last characters of the string. *)
Lemma endsWith_get (s suffix : string) (p : nat) :
  endsWith s suffix = true → (p < String.length suffix)%nat →
  String.get (p + (String.length s - String.length suffix)) s = String.get p suffix.
Proof.
  unfold endsWith. case_decide; [|done]. intros E%bool_decide_eq_true Hp.
  rewrite <-(String.substring_correct1 s _ (String.length suffix) p Hp).
  by rewrite E.
Qed.

(** Two suffixes with different last characters exclude one another. *)
Lemma endsWith_exclusive (s suffix1 suffix2 : string) (c1 c2 : Ascii.ascii) :
  String.get (String.length suffix1 - 1) suffix1 = Some c1 →
  String.get (String.length suffix2 - 1) suffix2 = Some c2 →
  c1 ≠ c2 →
  endsWith s suffix1 = true → endsWith s suffix2 = false.
Proof.
  intros H1 H2 Hne E1. destruct (endsWith s suffix2) eqn:E2; [|done].
  pose proof (endsWith_length _ _ E1). pose proof (endsWith_length _ _ E2).
  assert (0 < String.length suffix1)%nat by (destruct suffix1; [done|simpl; lia]).
  assert (0 < String.length suffix2)%nat by (destruct suffix2; [done|simpl; lia]).
  pose proof (endsWith_get s suffix1 (String.length suffix1 - 1) E1 ltac:(lia)) as G1.
  pose proof (endsWith_get s suffix2 (String.length suffix2 - 1) E2 ltac:(lia)) as G2.
  replace (String.length suffix1 - 1 + (String.length s - String.length suffix1))%nat
    with (String.length s - 1)%nat in G1 by lia.
  replace (String.length suffix2 - 1 + (String.length s - String.length suffix2))%nat
    with (String.length s - 1)%nat in G2 by lia.
  congruence.
Qed.

(** ** Facts about [mapM] over [Result], and about ordered objects *)

Lemma mapM_Result_cons {A B} (f : A → Result B) (x : A) (l : list A) :
  mapM f (x :: l) = f x ≫= λ y, mapM f l ≫= λ k, Ok (y :: k).
Proof. reflexivity. Qed.

Lemma mapM_Result_Ok {A B} (f : A → Result B) (l : list A) (k : list B) :
  mapM f l = Ok k → Forall2 (λ x y, f x = Ok y) l k.
Proof.
  revert k. induction l as [|x l IH]; intros k.
  - intros [= <-]. constructor.
  - rewrite mapM_Result_cons. destruct (f x) as [y|] eqn:Hx; [|done]. simpl.
    destruct (mapM f l) as [k'|]; [|done]. intros [= <-].
    constructor; [done|]. by apply IH.
Qed.

Lemma getEntry_assign {A} (k k' : string) (v : A) (o : list (string * A)) :
  getEntry k (assign k' v o) = if decide (k = k') then Some v else getEntry k o.
Proof.
  induction o as [|[k'' v''] o IH]; simpl.
  - by destruct (decide (k = k')).
  - destruct (decide (k' = k'')) as [->|Hne]; simpl.
    + by destruct (decide (k = k'')).
    + destruct (decide (k = k'')) as [->|]; [by rewrite decide_False|done].
Qed.

Lemma getEntry_app {A} (k : string) (o1 o2 : list (string * A)) :
  getEntry k (o1 ++ o2) =
  match getEntry k o1 with Some v => Some v | None => getEntry k o2 end.
Proof.
  induction o1 as [|[k' v'] o1 IH]; simpl; [done|]. by destruct (decide (k = k')).
Qed.

(** Of several entries with one key, [Object.fromEntries] keeps the last. *)
Lemma getEntry_fromEntries {A} (k : string) (entries : list (string * A)) :
  getEntry k (fromEntries entries) = getEntry k (reverse entries).
Proof.
  unfold fromEntries.
  enough (∀ acc, getEntry k (foldl (λ o kv, assign kv.1 kv.2 o) acc entries) =
                 match getEntry k (reverse entries) with
                 | Some v => Some v
                 | None => getEntry k acc
                 end) as H.
  { rewrite H. by destruct (getEntry k (reverse entries)). }
  induction entries as [|[k' v'] entries IH]; intros acc; simpl; [done|].
  rewrite IH, reverse_cons, getEntry_app, getEntry_assign. simpl.
  destruct (getEntry k (reverse entries)); [done|]. by destruct (decide (k = k')).
Qed.

Lemma getEntry_Some {A} (k : string) (v : A) (o : list (string * A)) :
  getEntry k o = Some v → (k, v) ∈ o.
Proof.
  induction o as [|[k' v'] o IH]; simpl; [done|].
  destruct (decide (k = k')) as [->|]; [intros [= ->]; left|right; auto].
Qed.

Lemma getEntry_is_Some {A} (k : string) (o : list (string * A)) :
  is_Some (getEntry k o) ↔ k ∈ o.*1.
Proof.
  induction o as [|[k' v'] o IH]; simpl.
  - split; [by intros [? [=]]|by intros ?%elem_of_nil].
  - destruct (decide (k = k')) as [->|Hne].
    + split; [left|eauto].
    + rewrite IH, elem_of_cons. split; [by right|by intros [?|?]].
Qed.

Lemma fromEntries_keys {A} (k : string) (entries : list (string * A)) :
  k ∈ (fromEntries entries).*1 ↔ k ∈ entries.*1.
Proof.
  rewrite <-!getEntry_is_Some, getEntry_fromEntries, !getEntry_is_Some.
  by rewrite fmap_reverse, elem_of_reverse.
Qed.

(** * [schema/normalize.js] *)

Module Schema.

Definition PRIMITIVE_TYPES : gset string :=
  {[ "bool"; "int"; "float"; "double"; "decimal128"; "objectId"; "string";
     "data"; "date"; "mixed"; "uuid" ]}.

(** [PRIMITIVE_TYPES.has(type)]; only a string can be a member. *)
Definition isPrimitive (type : JsValue) : bool :=
  match type with
  | JsString s => bool_decide (s ∈ PRIMITIVE_TYPES)
  | _ => false
  end.

Definition validateCanonicalPropertySchema
    (objectSchemaName : JsValue) (property : gmap string JsValue) : Result unit :=
  let name := get property "name" in
  let type := get property "type" in
  let objectType := get property "objectType" in
  let optional := get property "optional" in
  if bool_decide (type = JsString "list") && bool_decide (objectType = JsString "list")
  then Throw (Error ("List property '" +:+ toString objectSchemaName +:+ "#" +:+
                     toString name +:+ "' cannot have list elements"))
  else if bool_decide (type = JsString "list") && negb (isPrimitive objectType)
          && truthy optional
  then Throw (Error ("List property '" +:+ toString objectSchemaName +:+ "#" +:+
                     toString name +:+ "' of '" +:+ toString objectType +:+
                     "' elements, cannot be optional"))
  else if bool_decide (objectType = JsString "")
  then Throw (Error ("Property '" +:+ toString objectSchemaName +:+ "#" +:+
                     toString name +:+ "' cannot have an empty object type"))
  else Ok ().

(** [Object.fromEntries(Object.entries(obj).filter(([, v]) => typeof v !== "undefined"))] *)
Definition removeUndefinedValues (obj : gmap string JsValue) : gmap string JsValue :=
  filter (λ kv, kv.2 ≠ JsUndefined) obj.

(** A property declaration: a shorthand string or an object. *)
Inductive PropertySchemaArg :=
| Shorthand (schema : string)                    (* [typeof schema === "string"] *)
| PropertyObject (schema : gmap string JsValue).

(** [arg.properties]: an array of [{name, ...rest}] entries, or an object,
    given by its entries. *)
Inductive Properties :=
| PropertiesArray (entries : list (gmap string JsValue))  (* [Array.isArray(arg.properties)] *)
| PropertiesObject (entries : list (string * PropertySchemaArg)).

Record ObjectSchema := {
  name : JsValue;
  primaryKey : JsValue;
  asymmetric : JsValue;
  embedded : JsValue;
  properties : Properties;
}.

(** A class: whether it extends [RealmObject], and its static [schema] when
    that is an object. *)
Record RealmObjectClass := {
  className : string;
  extendsRealmObject : bool;
  schema : option ObjectSchema;
}.

Inductive ObjectSchemaArg :=
| ClassArg (arg : RealmObjectClass)   (* [typeof arg === "function"] *)
| ObjectArg (arg : ObjectSchema).

Module Canonical.
Record ObjectSchema := {
  constructor : option RealmObjectClass;
  name : JsValue;
  primaryKey : JsValue;
  asymmetric : JsValue;
  embedded : JsValue;
  properties : list (string * gmap string JsValue);
}.
End Canonical.

(** [arg.properties.map(({ name, ...rest }) => [name, rest])] *)
Definition entryOfArrayItem (item : gmap string JsValue) : string * PropertySchemaArg :=
  (toString (get item "name"), PropertyObject (delete "name" item)).

(** How many more times [normalizeObjectSchema] calls itself. *)
Definition depth (arg : ObjectSchemaArg) : nat :=
  match arg with
  | ClassArg _ => 2
  | ObjectArg {| properties := PropertiesArray _ |} => 1
  | ObjectArg {| properties := PropertiesObject _ |} => 0
  end.

Section WithTypeMappings.

(** [TYPE_MAPPINGS] is imported from "../internal" and is not part of the
    sources at hand. The code only asks [type in TYPE_MAPPINGS]; the
    parameter is the set of keys for which that test holds. *)
Variable TYPE_MAPPINGS : gset string.

(** [flags.ALLOW_VALUES_ARRAYS], from "../internal". *)
Variable ALLOW_VALUES_ARRAYS : bool.

Equations? normalizePropertyType (type : string) (allowObjectType : bool)
    : Result (gmap string JsValue) by wf (String.length type) lt :=
normalizePropertyType type allowObjectType with inspect (endsWith type "[]") := {
  | exist _ true _ =>
      assert allowObjectType
        "Expected no 'objectType' in property schema, when using '[]' shorthand" ≫= λ _,
      normalizePropertyType (dropEnd 2 type) true ≫= λ item,
      assert (bool_decide (get item "type" = JsString "object")
              || negb (truthy (get item "objectType")))
        ("Unexpected nested object type " +:+ toString (get item "objectType")) ≫= λ _,
      Ok {[ "type" := JsString "list";
            "objectType" := if bool_decide (get item "type" = JsString "object")
                            then get item "objectType" else get item "type";
            "optional" := if bool_decide (get item "type" = JsString "object")
                          then JsBool false
                          else JsBool (truthy (get item "optional")) ]}
  | exist _ false _ with inspect (endsWith type "<>") => {
    | exist _ true _ =>
        assert allowObjectType
          "Expected no 'objectType' in property schema, when using '<>' shorthand" ≫= λ _,
        let itemType := dropEnd 2 type in
        (if truthy (JsString itemType) then normalizePropertyType itemType true
         else Ok {[ "type" := JsString "mixed" ]}) ≫= λ item,
        Ok {[ "type" := JsString "set";
              "objectType" := if bool_decide (get item "type" = JsString "object")
                              then get item "objectType" else get item "type";
              "optional" := if bool_decide (get item "type" = JsString "object")
                            then JsBool true
                            else JsBool (truthy (get item "optional")) ]}
    | exist _ false _ with inspect (endsWith type "{}") => {
      | exist _ true _ =>
          assert allowObjectType
            "Expected no 'objectType' in property schema, when using '{}' shorthand" ≫= λ _,
          let itemType := dropEnd 2 type in
          (if truthy (JsString itemType) then normalizePropertyType itemType true
           else Ok {[ "type" := JsString "mixed"; "optional" := JsBool true ]}) ≫= λ item,
          Ok {[ "type" := JsString "dictionary";
                "objectType" := if bool_decide (get item "type" = JsString "object")
                                then get item "objectType" else get item "type";
                "optional" := if bool_decide (get item "type" = JsString "object")
                              then JsBool true
                              else JsBool (truthy (get item "optional")) ]}
      | exist _ false _ =>
          if endsWith type "?"
          then Ok {[ "optional" := JsBool true;
                     "type" := JsString (dropEnd 1 type) ]}
          else if bool_decide (type ∈ TYPE_MAPPINGS)
          then
            if bool_decide (type = "dictionary")
            then Ok {[ "type" := JsString type; "objectType" := JsString "mixed";
                       "optional" := JsBool true ]}
            else if bool_decide (type = "set")
            then Ok {[ "type" := JsString type; "objectType" := JsString "mixed";
                       "optional" := JsBool true ]}
            else if bool_decide (type = "mixed")
            then Ok {[ "type" := JsString type; "optional" := JsBool true ]}
            else Ok {[ "type" := JsString type ]}
          else Ok {[ "type" := JsString "object"; "objectType" := JsString type;
                     "optional" := JsBool true ]} } } }.
Proof.
  all: try subst itemType; apply length_dropEnd; [lia|].
  all: match goal with H : endsWith _ _ = true |- _ =>
         apply endsWith_length in H; exact H end.
Qed.

(** The [else] branch of [normalizePropertySchema]. *)
Definition normalizePropertySchemaObject (name : string) (schema : gmap string JsValue)
    : Result (gmap string JsValue) :=
  let rest := delete "type" schema in
  match get schema "type" with
  | JsString type =>
      propertySchemaFromType ←
        normalizePropertyType type
          (bool_decide (typeof (get rest "objectType") ≠ "string"));
      let mergedSchema :=
        removeUndefinedValues rest ∪ removeUndefinedValues propertySchemaFromType in
      (if bool_decide (get mergedSchema "type" = JsString "mixed")
          || bool_decide (get mergedSchema "objectType" = JsString "mixed")
       then assert (bool_decide (get mergedSchema "optional" ≠ JsBool false))
              "Mixed values should be declared as optional"
       else Ok ()) ≫= λ _,
      Ok (<["name" := JsString name]>
            (mergedSchema ∪
               {[ "indexed" := JsBool false; "optional" := JsBool false;
                  "mapTo" := JsString name ]}))
  | _ =>
      (* [type.endsWith] on a value that is not a string *)
      Throw (TypeError "type.endsWith is not a function")
  end.

(** The string case calls back with the parsed shorthand, an object. *)
Definition normalizePropertySchema (name : string) (schema : PropertySchemaArg)
    : Result (gmap string JsValue) :=
  match schema with
  | Shorthand schema =>
      normalizePropertyType schema true ≫= normalizePropertySchemaObject name
  | PropertyObject schema => normalizePropertySchemaObject name schema
  end.

(** The callback mapped over [Object.entries(arg.properties)]. *)
Definition normalizeProperty (argName argPrimaryKey : JsValue)
    (entry : string * PropertySchemaArg) : Result (string * gmap string JsValue) :=
  let '(name, property) := entry in
  canonicalPropertySchema ← normalizePropertySchema name property;
  (* A primary key is always indexed *)
  let canonicalPropertySchema :=
    if bool_decide (JsString name = argPrimaryKey)
    then <["indexed" := JsBool true]> canonicalPropertySchema
    else canonicalPropertySchema in
  validateCanonicalPropertySchema argName canonicalPropertySchema ≫= λ _,
  Ok (name, canonicalPropertySchema).

Equations? normalizeObjectSchema (arg : ObjectSchemaArg)
    : Result Canonical.ObjectSchema by wf (depth arg) lt :=
normalizeObjectSchema (ClassArg arg) :=
  (* [assert.extends(arg, RealmObject)], then [assert.object(arg.schema, "schema static")] *)
  assert (extendsRealmObject arg) "Expected class extending RealmObject" ≫= λ _,
  match schema arg with
  | Some argSchema =>
      normalizeObjectSchema (ObjectArg argSchema) ≫= λ schema,
      Ok {| Canonical.constructor := Some arg;
            Canonical.name := Canonical.name schema;
            Canonical.primaryKey := Canonical.primaryKey schema;
            Canonical.asymmetric := Canonical.asymmetric schema;
            Canonical.embedded := Canonical.embedded schema;
            Canonical.properties := Canonical.properties schema |}
  | None => Throw (AssertionError "Expected schema static to be an object")
  end;
normalizeObjectSchema (ObjectArg (Build_ObjectSchema name primaryKey asymmetric embedded
                                    (PropertiesArray entries))) :=
  if ALLOW_VALUES_ARRAYS
  then normalizeObjectSchema
         (ObjectArg {| name := name; primaryKey := primaryKey;
                       asymmetric := asymmetric; embedded := embedded;
                       properties := PropertiesObject
                                       (fromEntries (entryOfArrayItem <$> entries)) |})
  else Throw (Error "Array of properties are no longer supported");
normalizeObjectSchema (ObjectArg (Build_ObjectSchema name primaryKey asymmetric embedded
                                    (PropertiesObject entries))) :=
  mapM (normalizeProperty name primaryKey) entries ≫= λ properties,
  Ok {| Canonical.constructor := None;
        Canonical.name := name;
        Canonical.primaryKey := primaryKey;
        Canonical.asymmetric := js_or asymmetric (JsBool false);
        Canonical.embedded := js_or embedded (JsBool false);
        Canonical.properties := fromEntries properties |}.
Proof.
  - destruct argSchema as [? ? ? ? []]; simpl; lia.
  - simpl. lia.
Qed.

Definition normalizeRealmSchema (schema : list ObjectSchemaArg)
    : Result (list Canonical.ObjectSchema) :=
  mapM normalizeObjectSchema schema.

(** Rewrites on the right of an equation only: the left side of the goals
    below carries the proof of the test it was split on. *)
Local Ltac rewrite_rhs E :=
  match goal with
  | |- ?lhs = _ => let l := fresh "lhs" in set (l := lhs); rewrite E; subst l
  end.

(** The defining equation, in the shape of the source. *)
Lemma normalizePropertyType_eq (type : string) (allowObjectType : bool) :
  normalizePropertyType type allowObjectType =
  if endsWith type "[]" then
    assert allowObjectType
      "Expected no 'objectType' in property schema, when using '[]' shorthand" ≫= λ _,
    normalizePropertyType (dropEnd 2 type) true ≫= λ item,
    assert (bool_decide (get item "type" = JsString "object")
            || negb (truthy (get item "objectType")))
      ("Unexpected nested object type " +:+ toString (get item "objectType")) ≫= λ _,
    Ok {[ "type" := JsString "list";
          "objectType" := if bool_decide (get item "type" = JsString "object")
                          then get item "objectType" else get item "type";
          "optional" := if bool_decide (get item "type" = JsString "object")
                        then JsBool false
                        else JsBool (truthy (get item "optional")) ]}
  else if endsWith type "<>" then
    assert allowObjectType
      "Expected no 'objectType' in property schema, when using '<>' shorthand" ≫= λ _,
    (if truthy (JsString (dropEnd 2 type))
     then normalizePropertyType (dropEnd 2 type) true
     else Ok {[ "type" := JsString "mixed" ]}) ≫= λ item,
    Ok {[ "type" := JsString "set";
          "objectType" := if bool_decide (get item "type" = JsString "object")
                          then get item "objectType" else get item "type";
          "optional" := if bool_decide (get item "type" = JsString "object")
                        then JsBool true
                        else JsBool (truthy (get item "optional")) ]}
  else if endsWith type "{}" then
    assert allowObjectType
      "Expected no 'objectType' in property schema, when using '{}' shorthand" ≫= λ _,
    (if truthy (JsString (dropEnd 2 type))
     then normalizePropertyType (dropEnd 2 type) true
     else Ok {[ "type" := JsString "mixed"; "optional" := JsBool true ]}) ≫= λ item,
    Ok {[ "type" := JsString "dictionary";
          "objectType" := if bool_decide (get item "type" = JsString "object")
                          then get item "objectType" else get item "type";
          "optional" := if bool_decide (get item "type" = JsString "object")
                        then JsBool true
                        else JsBool (truthy (get item "optional")) ]}
  else if endsWith type "?" then
    Ok {[ "optional" := JsBool true; "type" := JsString (dropEnd 1 type) ]}
  else if bool_decide (type ∈ TYPE_MAPPINGS) then
    if bool_decide (type = "dictionary")
    then Ok {[ "type" := JsString type; "objectType" := JsString "mixed";
               "optional" := JsBool true ]}
    else if bool_decide (type = "set")
    then Ok {[ "type" := JsString type; "objectType" := JsString "mixed";
               "optional" := JsBool true ]}
    else if bool_decide (type = "mixed")
    then Ok {[ "type" := JsString type; "optional" := JsBool true ]}
    else Ok {[ "type" := JsString type ]}
  else Ok {[ "type" := JsString "object"; "objectType" := JsString type;
             "optional" := JsBool true ]}.
Proof.
  rewrite normalizePropertyType_equation_1.
  destruct (inspect (endsWith type "[]")) as [[] E1];
    cbn [normalizePropertyType_unfold_clause_1]; rewrite_rhs E1; [done|].
  destruct (inspect (endsWith type "<>")) as [[] E2];
    cbn [normalizePropertyType_unfold_clause_1_clause_2]; rewrite_rhs E2; [done|].
  destruct (inspect (endsWith type "{}")) as [[] E3];
    cbn [normalizePropertyType_unfold_clause_1_clause_2_clause_2]; rewrite_rhs E3; done.
Qed.

(** ** How the shorthand parser behaves, case by case *)

Lemma normalizePropertyType_optional (type : string) (allowObjectType : bool) :
  endsWith type "?" = true →
  normalizePropertyType type allowObjectType =
  Ok {[ "optional" := JsBool true; "type" := JsString (dropEnd 1 type) ]}.
Proof.
  intros E. rewrite normalizePropertyType_eq.
  assert (∀ suffix, suffix ∈ ["[]"; "<>"; "{}"] → endsWith type suffix = false) as Hno.
  { intros suffix Hsuffix.
    repeat (apply elem_of_cons in Hsuffix as [->|Hsuffix]);
      [..|by apply elem_of_nil in Hsuffix];
      (eapply (endsWith_exclusive _ "?"); [reflexivity|reflexivity|done|done]). }
  rewrite !Hno, E by set_solver. done.
Qed.

Lemma normalizePropertyType_list (type : string) :
  endsWith type "[]" = true →
  normalizePropertyType type true =
  normalizePropertyType (dropEnd 2 type) true ≫= λ item,
  assert (bool_decide (get item "type" = JsString "object")
          || negb (truthy (get item "objectType")))
    ("Unexpected nested object type " +:+ toString (get item "objectType")) ≫= λ _,
  Ok {[ "type" := JsString "list";
        "objectType" := if bool_decide (get item "type" = JsString "object")
                        then get item "objectType" else get item "type";
        "optional" := if bool_decide (get item "type" = JsString "object")
                      then JsBool false
                      else JsBool (truthy (get item "optional")) ]}.
Proof. intros E. rewrite normalizePropertyType_eq at 1. by rewrite E. Qed.

(** A string with none of the four suffixes. *)
Definition plain (type : string) : Prop :=
  endsWith type "[]" = false ∧ endsWith type "<>" = false ∧
  endsWith type "{}" = false ∧ endsWith type "?" = false.

Lemma normalizePropertyType_mappable (type : string) (allowObjectType : bool) :
  plain type → type ∈ TYPE_MAPPINGS →
  type ≠ "dictionary" → type ≠ "set" → type ≠ "mixed" →
  normalizePropertyType type allowObjectType = Ok {[ "type" := JsString type ]}.
Proof.
  intros (E1 & E2 & E3 & E4) Hin Hd Hs Hm. rewrite normalizePropertyType_eq.
  rewrite E1, E2, E3, E4.
  by rewrite (bool_decide_eq_true_2 _ Hin), !bool_decide_eq_false_2.
Qed.

Lemma normalizePropertyType_object (type : string) (allowObjectType : bool) :
  plain type → type ∉ TYPE_MAPPINGS →
  normalizePropertyType type allowObjectType =
  Ok {[ "type" := JsString "object"; "objectType" := JsString type;
        "optional" := JsBool true ]}.
Proof.
  intros (E1 & E2 & E3 & E4) Hin. rewrite normalizePropertyType_eq.
  rewrite E1, E2, E3, E4. by rewrite (bool_decide_eq_false_2 _ Hin).
Qed.

Lemma normalizePropertySchemaObject_eq
    (name : string) (schema : gmap string JsValue) (type : string) :
  get schema "type" = JsString type →
  normalizePropertySchemaObject name schema =
  normalizePropertyType type
    (bool_decide (typeof (get (delete "type" schema) "objectType") ≠ "string"))
  ≫= λ propertySchemaFromType,
  let mergedSchema :=
    removeUndefinedValues (delete "type" schema)
    ∪ removeUndefinedValues propertySchemaFromType in
  (if bool_decide (get mergedSchema "type" = JsString "mixed")
      || bool_decide (get mergedSchema "objectType" = JsString "mixed")
   then assert (bool_decide (get mergedSchema "optional" ≠ JsBool false))
          "Mixed values should be declared as optional"
   else Ok ()) ≫= λ _,
  Ok (<["name" := JsString name]>
        (mergedSchema ∪
           {[ "indexed" := JsBool false; "optional" := JsBool false;
              "mapTo" := JsString name ]})).
Proof. intros H. unfold normalizePropertySchemaObject. by rewrite H. Qed.

(** ** The object-schema normalizer on a mapping of properties *)

Lemma normalizeProperty_inv (argName argPrimaryKey : JsValue)
    (name : string) (property : PropertySchemaArg)
    (name' : string) (canonical : gmap string JsValue) :
  normalizeProperty argName argPrimaryKey (name, property) = Ok (name', canonical) →
  name' = name ∧
  (argPrimaryKey = JsString name → canonical !! "indexed" = Some (JsBool true)).
Proof.
  unfold normalizeProperty.
  destruct (normalizePropertySchema name property) as [c|]; [simpl|done].
  destruct (validateCanonicalPropertySchema _ _); [simpl|done].
  intros [= <- <-]. split; [done|]. intros ->.
  rewrite bool_decide_eq_true_2 by done. apply lookup_insert_eq.
Qed.

Lemma normalizeObjectSchema_mapping (name primaryKey asymmetric embedded : JsValue)
    (entries : list (string * PropertySchemaArg)) (schema : Canonical.ObjectSchema) :
  normalizeObjectSchema
    (ObjectArg {| name := name; primaryKey := primaryKey; asymmetric := asymmetric;
                  embedded := embedded; properties := PropertiesObject entries |})
  = Ok schema →
  ∃ properties,
    mapM (normalizeProperty name primaryKey) entries = Ok properties ∧
    Canonical.properties schema = fromEntries properties.
Proof.
  simp normalizeObjectSchema.
  destruct (mapM _ entries) as [properties|]; [simpl|done].
  intros [= <-]. eauto.
Qed.

Lemma normalizeProperties_primaryKey (argName : JsValue) (key : string)
    (entries : list (string * PropertySchemaArg))
    (properties : list (string * gmap string JsValue)) :
  mapM (normalizeProperty argName (JsString key)) entries = Ok properties →
  key ∈ entries.*1 →
  ∃ canonical, getEntry key (fromEntries properties) = Some canonical ∧
               canonical !! "indexed" = Some (JsBool true).
Proof.
  intros Hall%mapM_Result_Ok Hkey.
  assert (key ∈ properties.*1) as Hkey'.
  { clear -Hall Hkey. induction Hall as [|[n d] [n' c] ???? IH]; [done|].
    apply normalizeProperty_inv in H as [-> _]. simpl in *.
    apply elem_of_cons in Hkey as [->|Hkey]; [left|right; auto]. }
  apply fromEntries_keys, getEntry_is_Some in Hkey' as [canonical Hc].
  exists canonical. split; [done|].
  rewrite getEntry_fromEntries in Hc.
  apply getEntry_Some in Hc. rewrite elem_of_reverse in Hc.
  clear -Hall Hc. induction Hall as [|[n d] [n' c] ???? IH]; [by apply elem_of_nil in Hc|].
  apply elem_of_cons in Hc as [[= <- <-]|Hc]; [|auto].
  by apply normalizeProperty_inv in H as [-> ->].
Qed.

(** ** Mixed values: where [optional] is settled *)

Lemma get_Some (o : gmap string JsValue) (k : string) (v : JsValue) :
  o !! k = Some v → get o k = v.
Proof. unfold get. by intros ->. Qed.

Lemma get_defined (o : gmap string JsValue) (k : string) (v : JsValue) :
  get o k = v → v ≠ JsUndefined → o !! k = Some v.
Proof. unfold get. destruct (o !! k); simpl; congruence. Qed.

Lemma get_insert_ne (o : gmap string JsValue) (k k' : string) (v : JsValue) :
  k ≠ k' → get (<[k:=v]> o) k' = get o k'.
Proof. intros Hne. unfold get. by rewrite lookup_insert_ne. Qed.

Lemma get_union_r (o defaults : gmap string JsValue) (k : string) :
  defaults !! k = None → get (o ∪ defaults) k = get o k.
Proof.
  intros Hnone. unfold get. destruct (o !! k) as [v|] eqn:Hk.
  - by rewrite (lookup_union_Some_l _ _ _ _ Hk).
  - by rewrite lookup_union_r, Hnone.
Qed.

Lemma lookup_removeUndefinedValues (o : gmap string JsValue) (k : string) (v : JsValue) :
  o !! k = Some v → v ≠ JsUndefined → removeUndefinedValues o !! k = Some v.
Proof. intros Hk Hv. unfold removeUndefinedValues. by apply map_lookup_filter_Some. Qed.

(** A declaration that states [optional] and is accepted with a mixed type
    or object type has [optional == true] in its canonical schema. *)
Lemma normalizePropertySchemaObject_mixed_optional
    (name : string) (schema result : gmap string JsValue) (optional : bool) :
  get schema "optional" = JsBool optional →
  normalizePropertySchemaObject name schema = Ok result →
  get result "type" = JsString "mixed" ∨ get result "objectType" = JsString "mixed" →
  get result "optional" = JsBool true.
Proof.
  intros Hoptional%get_defined; [|done].
  unfold normalizePropertySchemaObject.
  destruct (get schema "type") as [| | | |type]; try done.
  destruct (normalizePropertyType type _) as [fromType|]; [simpl|done].
  set (merged := removeUndefinedValues (delete "type" schema)
                 ∪ removeUndefinedValues fromType).
  assert (merged !! "optional" = Some (JsBool optional)) as Hmerged.
  { apply lookup_union_Some_l, lookup_removeUndefinedValues; [|done].
    by rewrite lookup_delete_ne. }
  assert (∀ k, k = "type" ∨ k = "objectType" →
            get (<["name" := JsString name]>
                   (merged ∪ {[ "indexed" := JsBool false; "optional" := JsBool false;
                                "mapTo" := JsString name ]})) k = get merged k) as Hsame.
  { intros k [-> | ->]; by rewrite get_insert_ne, get_union_r. }
  intros Hresult Hmixed.
  destruct (bool_decide (get merged "type" = JsString "mixed")
            || bool_decide (get merged "objectType" = JsString "mixed")) eqn:Hguard.
  - unfold assert in Hresult. rewrite (get_Some _ _ _ Hmerged) in Hresult.
    destruct optional; [|done]. simpl in Hresult. injection Hresult as <-.
    rewrite get_insert_ne by done. apply get_Some. by apply lookup_union_Some_l.
  - simpl in Hresult. injection Hresult as <-.
    rewrite !Hsame in Hmixed by auto.
    apply orb_false_iff in Hguard as [H1%bool_decide_eq_false H2%bool_decide_eq_false].
    by destruct Hmixed.
Qed.

(** What the parser returns either states [optional], or is the bare
    [{type}] of a directly mappable type. *)
Lemma normalizePropertyType_shape
    (type : string) (allowObjectType : bool) (parsed : gmap string JsValue) :
  normalizePropertyType type allowObjectType = Ok parsed →
  (∃ optional : bool, get parsed "optional" = JsBool optional) ∨
  (parsed = {[ "type" := JsString type ]} ∧ plain type ∧ type ∈ TYPE_MAPPINGS ∧
   type ≠ "dictionary" ∧ type ≠ "set" ∧ type ≠ "mixed").
Proof.
  rewrite normalizePropertyType_eq.
  assert (∀ (a b c : JsValue) (optional : bool),
            get ({[ "type" := a; "objectType" := b; "optional" := JsBool optional ]}
                 : gmap string JsValue) "optional" = JsBool optional) as Hthree.
  { intros. apply get_Some. by rewrite !lookup_insert_ne, lookup_singleton_eq. }
  destruct (endsWith type "[]") eqn:E1.
  { destruct (assert allowObjectType _); [simpl|done].
    destruct (normalizePropertyType _ _) as [item|]; [simpl|done].
    destruct (assert _ _); [simpl|done]. intros [= <-]. left.
    destruct (bool_decide (get item "type" = JsString "object")); eauto. }
  destruct (endsWith type "<>") eqn:E2.
  { destruct (assert allowObjectType _); [simpl|done].
    match goal with |- context [?m ≫= _] => destruct m as [item|] end; [simpl|done].
    intros [= <-]. left.
    destruct (bool_decide (get item "type" = JsString "object")); eauto. }
  destruct (endsWith type "{}") eqn:E3.
  { destruct (assert allowObjectType _); [simpl|done].
    match goal with |- context [?m ≫= _] => destruct m as [item|] end; [simpl|done].
    intros [= <-]. left.
    destruct (bool_decide (get item "type" = JsString "object")); eauto. }
  destruct (endsWith type "?") eqn:E4.
  { intros [= <-]. left. exists true. apply get_Some, lookup_insert_eq. }
  destruct (bool_decide_reflect (type ∈ TYPE_MAPPINGS)) as [Hin|Hin];
    [|intros [= <-]; eauto].
  destruct (bool_decide_reflect (type = "dictionary")); [intros [= <-]; eauto|].
  destruct (bool_decide_reflect (type = "set")); [intros [= <-]; eauto|].
  destruct (bool_decide_reflect (type = "mixed")).
  { intros [= <-]. left. exists true. apply get_Some.
    by rewrite lookup_insert_ne, lookup_singleton_eq. }
  intros [= <-]. right. by repeat split.
Qed.

(** A shorthand string that is accepted with a mixed type or object type
    has [optional == true] in its canonical schema. *)
Lemma normalizePropertySchema_shorthand_mixed_optional
    (name shorthand : string) (result : gmap string JsValue) :
  normalizePropertySchema name (Shorthand shorthand) = Ok result →
  get result "type" = JsString "mixed" ∨ get result "objectType" = JsString "mixed" →
  get result "optional" = JsBool true.
Proof.
  unfold normalizePropertySchema.
  destruct (normalizePropertyType shorthand true) as [parsed|] eqn:Hparsed; [simpl|done].
  apply normalizePropertyType_shape in Hparsed
    as [[optional Hoptional]|(-> & Hplain & Hin & Hd & Hs & Hm)].
  { by apply normalizePropertySchemaObject_mixed_optional with (optional := optional). }
  rewrite (normalizePropertySchemaObject_eq _ _ shorthand)
    by (apply get_Some, lookup_singleton_eq).
  rewrite normalizePropertyType_mappable by done. simpl.
  unfold removeUndefinedValues.
  rewrite !delete_singleton_eq, !map_filter_empty, !(left_id_L ∅ (∪)).
  rewrite !map_filter_singleton_True by done.
  assert (get ({[ "type" := JsString shorthand ]} : gmap string JsValue) "type"
          = JsString shorthand) as Htype by (apply get_Some, lookup_singleton_eq).
  assert (get ({[ "type" := JsString shorthand ]} : gmap string JsValue) "objectType"
          = JsUndefined) as HobjectType by (unfold get; by rewrite lookup_singleton_ne).
  rewrite Htype, HobjectType.
  rewrite !bool_decide_eq_false_2 by congruence. simpl.
  intros [= <-]. rewrite !get_insert_ne, !get_union_r, Htype, HobjectType by done.
  intros [[=]|[=]]. done.
Qed.

End WithTypeMappings.

(** Modelled from the spec: the keys of [TYPE_MAPPINGS], which "../internal"
    defines and the sources at hand do not contain. The specification gives
    the type names as a closed enumeration: the primitive types, and
    [object], [list], [set] and [dictionary]. *)
Definition TYPE_MAPPINGS_spec : gset string :=
  PRIMITIVE_TYPES ∪ {[ "object"; "list"; "set"; "dictionary" ]}.

(** ** The ["?"] shorthand *)

(** The ["?"] case as the specification words it: strip the suffix, parse
    the remainder recursively, set [optional = true] on the result. *)
Definition optionalAsSpecified (TYPE_MAPPINGS : gset string)
    (type : string) (allowObjectType : bool) : Result (gmap string JsValue) :=
  (λ item, <["optional" := JsBool true]> item) <$>
    normalizePropertyType TYPE_MAPPINGS (dropEnd 1 type) allowObjectType.

(** C2, as stated, fails: on ["Person?"] the parser returns the prefix
    unparsed, [{optional: true, type: "Person"}], where a recursive parse of
    ["Person"] with [optional] set gives
    [{type: "object", objectType: "Person", optional: true}]. *)
Lemma normalizePropertyType_optional_keeps_prefix_unparsed :
  endsWith "Person?" "?" = true ∧
  endsWith "Person?" "[]" = false ∧ endsWith "Person?" "<>" = false ∧
  endsWith "Person?" "{}" = false ∧
  normalizePropertyType TYPE_MAPPINGS_spec "Person?" true =
    Ok {[ "optional" := JsBool true; "type" := JsString "Person" ]} ∧
  optionalAsSpecified TYPE_MAPPINGS_spec "Person?" true =
    Ok {[ "type" := JsString "object"; "objectType" := JsString "Person";
          "optional" := JsBool true ]} ∧
  normalizePropertyType TYPE_MAPPINGS_spec "Person?" true ≠
    optionalAsSpecified TYPE_MAPPINGS_spec "Person?" true.
Proof.
  split_and!; [vm_compute; reflexivity..|].
  apply (bool_decide_unpack _). vm_compute. exact I.
Qed.

(** C2, amended: for every type string ending in ["?"] the parser returns
    [{optional: true, type: prefix}], where [prefix] is the string without
    its last character, kept as it is and not parsed. This is the recursive
    parse of the prefix with [optional] set to [true] when the prefix is a
    directly mappable type name other than ["dictionary"] and ["set"]. *)
Theorem normalizePropertyType_optional_suffix
    (TYPE_MAPPINGS : gset string) (type : string) (allowObjectType : bool) :
  endsWith type "?" = true →
  normalizePropertyType TYPE_MAPPINGS type allowObjectType =
    Ok {[ "optional" := JsBool true; "type" := JsString (dropEnd 1 type) ]} ∧
  (plain (dropEnd 1 type) → dropEnd 1 type ∈ TYPE_MAPPINGS →
   dropEnd 1 type ≠ "dictionary" → dropEnd 1 type ≠ "set" →
   normalizePropertyType TYPE_MAPPINGS type allowObjectType =
     optionalAsSpecified TYPE_MAPPINGS type allowObjectType).
Proof.
  intros E. rewrite (normalizePropertyType_optional _ _ _ E). split; [done|].
  intros Hplain Hin Hd Hs. unfold optionalAsSpecified.
  destruct (decide (dropEnd 1 type = "mixed")) as [Hm|Hm].
  - rewrite normalizePropertyType_eq.
    destruct Hplain as (-> & -> & -> & ->).
    rewrite (bool_decide_eq_true_2 _ Hin), Hm. by vm_compute.
  - by rewrite normalizePropertyType_mappable.
Qed.

(** [parse("int?") == {optional: true, type: "int"}] *)
Lemma normalizePropertyType_optional_suffix_int :
  endsWith "int?" "?" = true ∧
  normalizePropertyType TYPE_MAPPINGS_spec "int?" true =
    Ok {[ "optional" := JsBool true; "type" := JsString "int" ]}.
Proof.
  split; [reflexivity|].
  exact (proj1 (normalizePropertyType_optional_suffix
                  TYPE_MAPPINGS_spec "int?" true eq_refl)).
Defined.

(** ** Mixed values and [optional] *)

(** C1: the declaration [{type: "list", objectType: "mixed"}] is accepted,
    and its canonical schema has [objectType == "mixed"] with
    [optional == false]. The assertion looks at the merged declaration, where
    [optional] is still absent; the default [optional: false] is filled in
    after it. *)
Theorem normalizePropertySchema_mixed_list_defaults_to_not_optional :
  ∃ result,
    normalizePropertySchema TYPE_MAPPINGS_spec "values"
      (PropertyObject {[ "type" := JsString "list";
                         "objectType" := JsString "mixed" ]}) = Ok result ∧
    result = {[ "name" := JsString "values"; "type" := JsString "list";
                "objectType" := JsString "mixed"; "optional" := JsBool false;
                "indexed" := JsBool false; "mapTo" := JsString "values" ]} ∧
    get result "objectType" = JsString "mixed" ∧
    get result "optional" = JsBool false.
Proof.
  eexists. split_and!; [|reflexivity|..]; vm_compute; reflexivity.
Qed.

(** The declarations on which the invariant does hold: every shorthand
    string, and every object that states [optional]. Accepted with a mixed
    type or object type, their canonical schema has [optional == true]. *)
Theorem normalizePropertySchema_mixed_is_optional
    (TYPE_MAPPINGS : gset string) (name : string) (schema : PropertySchemaArg)
    (result : gmap string JsValue) :
  match schema with
  | Shorthand _ => True
  | PropertyObject schema => ∃ optional : bool, get schema "optional" = JsBool optional
  end →
  normalizePropertySchema TYPE_MAPPINGS name schema = Ok result →
  get result "type" = JsString "mixed" ∨ get result "objectType" = JsString "mixed" →
  get result "optional" = JsBool true.
Proof.
  destruct schema as [shorthand|schema].
  - intros _. apply normalizePropertySchema_shorthand_mixed_optional.
  - intros [optional Hoptional].
    by apply normalizePropertySchemaObject_mixed_optional with (optional := optional).
Qed.

Lemma normalizePropertySchema_mixed_is_optional_list :
  ∃ result,
    normalizePropertySchema TYPE_MAPPINGS_spec "values" (Shorthand "mixed[]") = Ok result ∧
    get result "objectType" = JsString "mixed" ∧
    get result "optional" = JsBool true.
Proof.
  assert (normalizePropertySchema TYPE_MAPPINGS_spec "values" (Shorthand "mixed[]") =
          Ok {[ "name" := JsString "values"; "type" := JsString "list";
                "objectType" := JsString "mixed"; "optional" := JsBool true;
                "indexed" := JsBool false; "mapTo" := JsString "values" ]}) as Hresult
    by (vm_compute; reflexivity).
  eexists. split; [exact Hresult|].
  assert (get ({[ "name" := JsString "values"; "type" := JsString "list";
                  "objectType" := JsString "mixed"; "optional" := JsBool true;
                  "indexed" := JsBool false; "mapTo" := JsString "values" ]}
               : gmap string JsValue) "objectType" = JsString "mixed") as HobjectType
    by (vm_compute; reflexivity).
  split; [exact HobjectType|].
  exact (normalizePropertySchema_mixed_is_optional
           TYPE_MAPPINGS_spec "values" (Shorthand "mixed[]") _ I Hresult
           (or_intror HobjectType)).
Defined.

(** ** The validator *)

(** C5: on a canonical property (its [optional] is a boolean) the validator
    raises exactly in the three cases the specification lists. *)
Theorem validateCanonicalPropertySchema_raises_iff
    (objectSchemaName : JsValue) (property : gmap string JsValue) (optional : bool) :
  get property "optional" = JsBool optional →
  (∃ e, validateCanonicalPropertySchema objectSchemaName property = Throw e) ↔
  (get property "type" = JsString "list" ∧
   get property "objectType" = JsString "list") ∨
  (get property "type" = JsString "list" ∧
   isPrimitive (get property "objectType") = false ∧
   get property "optional" = JsBool true) ∨
  get property "objectType" = JsString "".
Proof.
  intros Hopt. unfold validateCanonicalPropertySchema. rewrite Hopt. simpl.
  destruct (bool_decide_reflect (get property "type" = JsString "list")) as [Ht|Ht];
    destruct (bool_decide_reflect (get property "objectType" = JsString "list")) as [Ho|Ho];
    destruct (bool_decide_reflect (get property "objectType" = JsString "")) as [He|He];
    destruct (isPrimitive (get property "objectType")) eqn:Hp;
    destruct optional; simpl;
    split; try (intros [e [=]]); eauto 6; try (intros _; eauto; fail);
    intros [[]|[(?&?&?)|?]]; congruence.
Qed.

(** The validator rejects [{type: "list", objectType: "Person", optional: true}]
    and accepts [{type: "list", objectType: "int", optional: true}]. *)
Lemma validateCanonicalPropertySchema_list_examples :
  (∃ e, validateCanonicalPropertySchema (JsString "Person")
          {[ "name" := JsString "friends"; "type" := JsString "list";
             "objectType" := JsString "Person"; "optional" := JsBool true ]} = Throw e) ∧
  validateCanonicalPropertySchema (JsString "Person")
    {[ "name" := JsString "scores"; "type" := JsString "list";
       "objectType" := JsString "int"; "optional" := JsBool true ]} = Ok ().
Proof.
  split.
  - apply (validateCanonicalPropertySchema_raises_iff _ _ true); [reflexivity|].
    right; left. split_and!; reflexivity.
  - match goal with
    | |- validateCanonicalPropertySchema ?n ?p = _ =>
        destruct (validateCanonicalPropertySchema n p) as [[]|e] eqn:Hv; [reflexivity|];
        destruct (proj1 (validateCanonicalPropertySchema_raises_iff n p true eq_refl)
                    (ex_intro _ e Hv)) as [[_ [=]]|[(_ & [=] & _)|[=]]]
    end.
Defined.

(** ** Object schemas *)

(** The object-like declaration behind an argument: the argument itself, or
    the static [schema] of a class. *)
Definition declaration (arg : ObjectSchemaArg) : option ObjectSchema :=
  match arg with
  | ClassArg arg => schema arg
  | ObjectArg arg => Some arg
  end.

(** The names of the properties a declaration declares. *)
Definition propertyNames (decl : ObjectSchema) : list string :=
  match properties decl with
  | PropertiesArray entries => (entryOfArrayItem <$> entries).*1
  | PropertiesObject entries => entries.*1
  end.

(** The mapping form of an array of [{name, ...rest}] entries, as the
    specification words it: the object [{name: rest, ...}] with the same
    entries, written down entry after entry. *)
Fixpoint mappingFormFrom (o : list (string * PropertySchemaArg))
    (entries : list (gmap string JsValue)) : list (string * PropertySchemaArg) :=
  match entries with
  | [] => o
  | item :: entries =>
      mappingFormFrom
        (assign (toString (get item "name")) (PropertyObject (delete "name" item)) o)
        entries
  end.

Definition mappingForm (entries : list (gmap string JsValue))
    : list (string * PropertySchemaArg) :=
  mappingFormFrom [] entries.

Lemma mappingForm_fromEntries (entries : list (gmap string JsValue)) :
  mappingForm entries = fromEntries (entryOfArrayItem <$> entries).
Proof.
  unfold mappingForm, fromEntries. generalize (@nil (string * PropertySchemaArg)).
  induction entries as [|item entries IH]; intros o; simpl; [done|]. apply IH.
Qed.

Lemma assign_fresh {A} (k : string) (v : A) (o : list (string * A)) :
  k ∉ o.*1 → assign k v o = (o ++ [(k, v)])%list.
Proof.
  induction o as [|[k' v'] o IH]; simpl; [done|].
  rewrite not_elem_of_cons. intros [Hne Hk]. by rewrite decide_False, IH.
Qed.

(** With pairwise different names, the mapping form lists the entries as
    they stand in the array. *)
Lemma mappingForm_distinct (entries : list (gmap string JsValue)) :
  NoDup (entryOfArrayItem <$> entries).*1 →
  mappingForm entries = entryOfArrayItem <$> entries.
Proof.
  unfold mappingForm.
  enough (∀ o, NoDup (o.*1 ++ (entryOfArrayItem <$> entries).*1)%list →
               mappingFormFrom o entries = (o ++ (entryOfArrayItem <$> entries))%list)
    as H.
  { intros Hnd. by apply (H []). }
  induction entries as [|item entries IH]; intros o Hnd; simpl.
  - by rewrite app_nil_r.
  - simpl in Hnd. rewrite IH.
    + rewrite assign_fresh; [by rewrite <-app_assoc|].
      apply NoDup_app in Hnd as (_ & Hdisj & _). intros Hin.
      apply (Hdisj _ Hin). left.
    + rewrite assign_fresh.
      * rewrite fmap_app, <-app_assoc. done.
      * apply NoDup_app in Hnd as (_ & Hdisj & _). intros Hin.
        apply (Hdisj _ Hin). left.
Qed.

(** C6: an array of properties is refused when the compatibility flag is
    off; when it is on, the declaration normalizes as the same declaration
    with [properties] in mapping form does (under either flag). *)
Theorem normalizeObjectSchema_array_of_properties
    (TYPE_MAPPINGS : gset string) (name primaryKey asymmetric embedded : JsValue)
    (entries : list (gmap string JsValue)) :
  let array :=
    ObjectArg {| name := name; primaryKey := primaryKey; asymmetric := asymmetric;
                 embedded := embedded; properties := PropertiesArray entries |} in
  let mapping :=
    ObjectArg {| name := name; primaryKey := primaryKey; asymmetric := asymmetric;
                 embedded := embedded;
                 properties := PropertiesObject (mappingForm entries) |} in
  normalizeObjectSchema TYPE_MAPPINGS false array =
    Throw (Error "Array of properties are no longer supported") ∧
  ∀ flag, normalizeObjectSchema TYPE_MAPPINGS true array =
          normalizeObjectSchema TYPE_MAPPINGS flag mapping.
Proof.
  intros array mapping. subst array mapping. split.
  - by simp normalizeObjectSchema.
  - intros flag. rewrite mappingForm_fromEntries. by simp normalizeObjectSchema.
Qed.

(** C7: in an accepted declaration whose [primaryKey] names one of its
    properties, that property's canonical schema has [indexed === true]. *)
Theorem normalizeObjectSchema_primaryKey_indexed
    (TYPE_MAPPINGS : gset string) (ALLOW_VALUES_ARRAYS : bool)
    (arg : ObjectSchemaArg) (decl : ObjectSchema)
    (schema : Canonical.ObjectSchema) (key : string) :
  declaration arg = Some decl →
  primaryKey decl = JsString key →
  key ∈ propertyNames decl →
  normalizeObjectSchema TYPE_MAPPINGS ALLOW_VALUES_ARRAYS arg = Ok schema →
  ∃ canonical,
    getEntry key (Canonical.properties schema) = Some canonical ∧
    canonical !! "indexed" = Some (JsBool true).
Proof.
  intros Hdecl Hpk Hkey.
  assert (∀ schema,
    normalizeObjectSchema TYPE_MAPPINGS ALLOW_VALUES_ARRAYS (ObjectArg decl) = Ok schema →
    ∃ canonical, getEntry key (Canonical.properties schema) = Some canonical ∧
                 canonical !! "indexed" = Some (JsBool true)) as Hobject.
  { clear schema. intros schema.
    destruct decl as [name pk asymmetric embedded [entries|entries]];
      simpl in Hpk; subst pk; unfold propertyNames in Hkey; simpl in Hkey.
    - rewrite normalizeObjectSchema_equation_2. destruct ALLOW_VALUES_ARRAYS; [|done].
      intros (properties & Hall & ->)%normalizeObjectSchema_mapping.
      eapply normalizeProperties_primaryKey; [done|]. by apply fromEntries_keys.
    - intros (properties & Hall & ->)%normalizeObjectSchema_mapping.
      by eapply normalizeProperties_primaryKey. }
  destruct arg as [class|object]; simpl in Hdecl.
  - simp normalizeObjectSchema. rewrite Hdecl.
    destruct (assert _ _); [simpl|done].
    destruct (normalizeObjectSchema _ _ (ObjectArg decl)) as [inner|] eqn:Hinner;
      [simpl|done].
    intros [= <-]. simpl. by apply Hobject.
  - injection Hdecl as ->. apply Hobject.
Qed.

(** A declaration with a primary key that never sets [indexed]. *)
Definition Task : ObjectSchemaArg :=
  ObjectArg {| name := JsString "Task"; primaryKey := JsString "id";
               asymmetric := JsUndefined; embedded := JsUndefined;
               properties := PropertiesObject
                 [("id", Shorthand "int"); ("title", Shorthand "string")] |}.

Lemma normalizeObjectSchema_primaryKey_indexed_Task :
  ∃ schema canonical,
    normalizeObjectSchema TYPE_MAPPINGS_spec false Task = Ok schema ∧
    getEntry "id" (Canonical.properties schema) = Some canonical ∧
    canonical !! "indexed" = Some (JsBool true).
Proof.
  destruct (normalizeObjectSchema TYPE_MAPPINGS_spec false Task)
    as [schema|e] eqn:Hschema.
  - destruct (normalizeObjectSchema_primaryKey_indexed
                TYPE_MAPPINGS_spec false Task _ schema "id"
                eq_refl eq_refl (list_elem_of_here _ _) Hschema)
      as (canonical & Hentry & Hindexed).
    exists schema, canonical. split; [reflexivity|]. split; assumption.
  - exfalso. vm_compute in Hschema. discriminate Hschema.
Defined.

(** ** End to end *)

(** [{name: "Person", properties: {name: "string", age: "int?", friends: "Person[]"}}] *)
Definition Person : ObjectSchemaArg :=
  ObjectArg {| name := JsString "Person"; primaryKey := JsUndefined;
               asymmetric := JsUndefined; embedded := JsUndefined;
               properties := PropertiesObject
                 [("name", Shorthand "string"); ("age", Shorthand "int?");
                  ("friends", Shorthand "Person[]")] |}.

Local Ltac plain_string := by (split_and!; vm_compute).

(** C4: whenever ["string"], ["int"] and ["list"] are keys of
    [TYPE_MAPPINGS] and ["Person"] is not, the [Person] declaration
    normalizes, with the canonical [age] and [friends] of the
    specification. *)
Theorem normalizeObjectSchema_Person
    (TYPE_MAPPINGS : gset string) (ALLOW_VALUES_ARRAYS : bool) :
  "string" ∈ TYPE_MAPPINGS → "int" ∈ TYPE_MAPPINGS → "list" ∈ TYPE_MAPPINGS →
  "Person" ∉ TYPE_MAPPINGS →
  ∃ schema,
    normalizeObjectSchema TYPE_MAPPINGS ALLOW_VALUES_ARRAYS Person = Ok schema ∧
    getEntry "age" (Canonical.properties schema) =
      Some {[ "type" := JsString "int"; "optional" := JsBool true;
              "indexed" := JsBool false; "mapTo" := JsString "age";
              "name" := JsString "age" ]} ∧
    getEntry "friends" (Canonical.properties schema) =
      Some {[ "type" := JsString "list"; "objectType" := JsString "Person";
              "optional" := JsBool false; "indexed" := JsBool false;
              "mapTo" := JsString "friends"; "name" := JsString "friends" ]}.
Proof.
  intros Hstring Hint Hlist HPerson.
  set (normalize := normalizeProperty TYPE_MAPPINGS (JsString "Person") JsUndefined).
  assert (normalize ("name", Shorthand "string") =
          Ok ("name", {[ "type" := JsString "string"; "optional" := JsBool false;
                         "indexed" := JsBool false; "mapTo" := JsString "name";
                         "name" := JsString "name" ]})) as Hname.
  { unfold normalize, normalizeProperty, normalizePropertySchema.
    rewrite (normalizePropertyType_mappable _ "string") by (done || plain_string).
    cbn [mbind Result_bind].
    rewrite (normalizePropertySchemaObject_eq _ _ _ "string") by (vm_compute; reflexivity).
    rewrite (normalizePropertyType_mappable _ "string") by (done || plain_string).
    vm_compute. reflexivity. }
  assert (normalize ("age", Shorthand "int?") =
          Ok ("age", {[ "type" := JsString "int"; "optional" := JsBool true;
                        "indexed" := JsBool false; "mapTo" := JsString "age";
                        "name" := JsString "age" ]})) as Hage.
  { unfold normalize, normalizeProperty, normalizePropertySchema.
    rewrite (normalizePropertyType_optional _ "int?") by (vm_compute; reflexivity).
    cbn [mbind Result_bind]. change (dropEnd 1 "int?") with "int".
    rewrite (normalizePropertySchemaObject_eq _ _ _ "int") by (vm_compute; reflexivity).
    rewrite (normalizePropertyType_mappable _ "int") by (done || plain_string).
    vm_compute. reflexivity. }
  assert (normalizePropertyType TYPE_MAPPINGS "Person[]" true =
          Ok {[ "type" := JsString "list"; "objectType" := JsString "Person";
                "optional" := JsBool false ]}) as Hparse.
  { rewrite (normalizePropertyType_list _ "Person[]") by (vm_compute; reflexivity).
    change (dropEnd 2 "Person[]") with "Person".
    rewrite (normalizePropertyType_object _ "Person") by (done || plain_string).
    vm_compute. reflexivity. }
  assert (normalize ("friends", Shorthand "Person[]") =
          Ok ("friends", {[ "type" := JsString "list"; "objectType" := JsString "Person";
                            "optional" := JsBool false; "indexed" := JsBool false;
                            "mapTo" := JsString "friends";
                            "name" := JsString "friends" ]})) as Hfriends.
  { unfold normalize, normalizeProperty, normalizePropertySchema.
    rewrite Hparse. cbn [mbind Result_bind].
    rewrite (normalizePropertySchemaObject_eq _ _ _ "list") by (vm_compute; reflexivity).
    rewrite (normalizePropertyType_mappable _ "list") by (done || plain_string).
    vm_compute. reflexivity. }
  unfold Person. simp normalizeObjectSchema. fold normalize.
  rewrite !mapM_Result_cons, Hname, Hage, Hfriends.
  eexists. split; [reflexivity|]. split; vm_compute; reflexivity.
Qed.

Lemma normalizeObjectSchema_Person_spec :
  ∃ schema,
    normalizeObjectSchema TYPE_MAPPINGS_spec false Person = Ok schema ∧
    getEntry "age" (Canonical.properties schema) =
      Some {[ "type" := JsString "int"; "optional" := JsBool true;
              "indexed" := JsBool false; "mapTo" := JsString "age";
              "name" := JsString "age" ]} ∧
    getEntry "friends" (Canonical.properties schema) =
      Some {[ "type" := JsString "list"; "objectType" := JsString "Person";
              "optional" := JsBool false; "indexed" := JsBool false;
              "mapTo" := JsString "friends"; "name" := JsString "friends" ]}.
Proof.
  apply (normalizeObjectSchema_Person TYPE_MAPPINGS_spec false).
  - apply (bool_decide_unpack _). vm_compute. exact I.
  - apply (bool_decide_unpack _). vm_compute. exact I.
  - apply (bool_decide_unpack _). vm_compute. exact I.
  - apply (bool_decide_unpack _). vm_compute. exact I.
Defined.

End Schema.

(** * [List.js] *)

Module ListAdapter.

Section WithHelpers.

Local Open Scope nat_scope.

(** Host values and the engine's values, with the two marshalling helpers
    the adapter is handed ([helpers.fromBinding], [helpers.toBinding]). *)
Context {Value BindingValue : Type}.
Variable fromBinding : BindingValue → Value.
Variable toBinding : Value → BindingValue.

(** Modelled from the spec: [toBinding(item, () => [internal.insertEmbedded(index), true])]
    is not part of the sources at hand. It obtains "a freshly inserted
    embedded-object slot at the target position from the engine" through
    the factory, "then marshals the value's fields into it";
    [toEmbedded item] is the object the slot then holds. *)
Variable toEmbedded : Value → BindingValue.

(** A call into the engine's list ([binding.List]). *)
Inductive Call :=
| GetAny (index : Z)
| Remove (index : Z)
| InsertAny (index : Z) (value : BindingValue)
| InsertEmbedded (index : Z).

(** A [List]: its realm's transaction state, [isEmbedded], the elements of
    [internal], and the calls made into the engine so far, oldest first. *)
Record List := {
  inTransaction : bool;
  isEmbedded : bool;
  internal : list BindingValue;
  calls : list Call;
}.

(** A method: it reads and changes the list, and returns or throws. *)
Definition Method (A : Type) : Type := List → Result A * List.

Definition ret {A} (a : A) : Method A := λ this, (Ok a, this).
Definition throw {A} (e : Exception) : Method A := λ this, (Throw e, this).
Definition bind {A B} (m : Method A) (f : A → Method B) : Method B := λ this,
  match m this with
  | (Ok a, this) => f a this
  | (Throw e, this) => (Throw e, this)
  end.

Global Instance Method_ret : MRet Method := @ret.
Global Instance Method_bind : MBind Method := λ A B f m, bind m f.

(** Modelled from the spec: [assert.inTransaction(realm)] of "./internal":
    "violation fails with a transaction-state error". *)
Definition assertInTransaction : Method unit := λ this,
  if inTransaction this then (Ok (), this) else (Throw TransactionStateError, this).

(** Modelled from the spec: [assert.number(value, name)] of "./internal". *)
Definition assertNumber (value : JsValue) (name : string) : Method Z :=
  match value with
  | JsNumber n => ret n
  | _ => throw (AssertionError ("Expected " +:+ name +:+ " to be a number"))
  end.

(** Modelled from the spec: the engine's list, [binding.List], is not part
    of the sources at hand. Its operations are "bounds-checked by the
    engine, not locally", and a failure is an [EngineError]. *)
Definition size : Method Z := λ this, (Ok (Z.of_nat (length (internal this))), this).

Definition called (call : Call) (this : List) : List :=
  {| inTransaction := inTransaction this; isEmbedded := isEmbedded this;
     internal := internal this; calls := calls this ++ [call] |}.

Definition setInternal (elements : list BindingValue) (this : List) : List :=
  {| inTransaction := inTransaction this; isEmbedded := isEmbedded this;
     internal := elements; calls := calls this |}.

Definition outOfBounds : Exception := EngineError "index out of bounds".

Definition getAny (index : Z) : Method BindingValue := λ this,
  let this := called (GetAny index) this in
  match decide (0 ≤ index)%Z, internal this !! Z.to_nat index with
  | left _, Some value => (Ok value, this)
  | _, _ => (Throw outOfBounds, this)
  end.

Definition remove (index : Z) : Method unit := λ this,
  let this := called (Remove index) this in
  if decide (0 ≤ index < Z.of_nat (length (internal this)))%Z
  then (Ok (), setInternal (delete (Z.to_nat index) (internal this)) this)
  else (Throw outOfBounds, this).

Definition insertAt (index : Z) (value : BindingValue) (this : List) : Result unit * List :=
  if decide (0 ≤ index ≤ Z.of_nat (length (internal this)))%Z
  then (Ok (), setInternal (take (Z.to_nat index) (internal this) ++ value ::
                            drop (Z.to_nat index) (internal this)) this)
  else (Throw outOfBounds, this).

Definition insertAny (index : Z) (value : BindingValue) : Method unit := λ this,
  insertAt index value (called (InsertAny index value) this).

(** [toBinding(item, () => [internal.insertEmbedded(index), true])] *)
Definition insertEmbedded (index : Z) (item : Value) : Method unit := λ this,
  insertAt index (toEmbedded item) (called (InsertEmbedded index) this).

(** ** The methods *)

Definition pop : Method (option Value) :=
  assertInTransaction ;;
  size ← size;
  let lastIndex := (size - 1)%Z in
  if decide (lastIndex >= 0)%Z then
    value ← getAny lastIndex;
    let result := fromBinding value in
    remove lastIndex ;;
    ret (Some result)
  else ret None.

Definition shift : Method (option Value) :=
  assertInTransaction ;;
  size ← size;
  if decide (size > 0)%Z then
    value ← getAny 0;
    let result := fromBinding value in
    remove 0 ;;
    ret (Some result)
  else ret None.

(** The body of the insertion loops: [index] is [start + offset]. *)
Definition insertItem (index : Z) (item : Value) : Method unit := λ this,
  if isEmbedded this then insertEmbedded index item this
  else insertAny index (toBinding item) this.

Fixpoint insertItems (index : Z) (items : list Value) : Method unit :=
  match items with
  | [] => ret ()
  | item :: items => insertItem index item ;; insertItems (index + 1) items
  end.

Definition push (items : list Value) : Method Z :=
  assertInTransaction ;;
  start ← size;
  insertItems start items ;;
  size.

Definition unshift (items : list Value) : Method Z :=
  assertInTransaction ;;
  insertItems 0 items ;;
  size.

(** [for (let i = start; i < end; i++) result.push(fromBinding(internal.getAny(i)))] *)
Fixpoint getRange (indices : list Z) : Method (list Value) :=
  match indices with
  | [] => ret []
  | i :: indices =>
      value ← getAny i;
      result ← getRange indices;
      ret (fromBinding value :: result)
  end.

(** [for (let i = end - 1; i >= start; i--) internal.remove(i)] *)
Fixpoint removeEach (indices : list Z) : Method unit :=
  match indices with
  | [] => ret ()
  | i :: indices => remove i ;; removeEach indices
  end.

Definition splice (start deleteCount : JsValue) (items : list Value) : Method (list Value) :=
  assertInTransaction ;;
  start ← assertNumber start "start";
  size ← size;
  (* If negative, it will begin that many elements from the end of the array. *)
  let start := if decide (start < 0)%Z then (size + start)%Z else start in
  (* If greater than the length of the array, start will be set to the length of the array. *)
  let start := if decide (start > size)%Z then size else start in
  let end_ := match deleteCount with
              | JsNumber deleteCount => Z.min (start + deleteCount) size
              | _ => size
              end in
  (* Get the elements that are about to be deleted *)
  result ← getRange (seqZ start (end_ - start));
  (* Remove the elements from the list (backwards) *)
  removeEach (reverse (seqZ start (end_ - start))) ;;
  (* Insert any new elements *)
  insertItems start items ;;
  ret result.

(** ** How the engine calls and the sequencing compute *)

Lemma bind_Ok {A B} (m : Method A) (f : A → Method B) (this this' : List) (a : A) :
  m this = (Ok a, this') → (m ≫= f) this = f a this'.
Proof. unfold mbind, Method_bind, bind. by intros ->. Qed.

Lemma bind_Throw {A B} (m : Method A) (f : A → Method B) (this this' : List) e :
  m this = (Throw e, this') → (m ≫= f) this = (Throw e, this').
Proof. unfold mbind, Method_bind, bind. by intros ->. Qed.

Lemma assertInTransaction_Ok (this : List) :
  inTransaction this = true → assertInTransaction this = (Ok (), this).
Proof. unfold assertInTransaction. by intros ->. Qed.

Lemma getAny_Ok (index : Z) (value : BindingValue) (this : List) :
  (0 ≤ index)%Z → internal this !! Z.to_nat index = Some value →
  getAny index this = (Ok value, called (GetAny index) this).
Proof.
  intros Hindex Hvalue. unfold getAny. cbn [called internal].
  by rewrite decide_True, Hvalue.
Qed.

Lemma getAny_negative (index : Z) (this : List) :
  (index < 0)%Z → getAny index this = (Throw outOfBounds, called (GetAny index) this).
Proof. intros Hindex. unfold getAny. by rewrite decide_False by lia. Qed.

Lemma remove_Ok (index : Z) (this : List) :
  (0 ≤ index < Z.of_nat (length (internal this)))%Z →
  remove index this =
  (Ok (), setInternal (delete (Z.to_nat index) (internal this)) (called (Remove index) this)).
Proof. intros Hindex. unfold remove. cbn [called internal]. by rewrite decide_True. Qed.

(** What ends up in the list for an item, and the engine call that puts it
    there. *)
Definition stored (embedded : bool) (item : Value) : BindingValue :=
  if embedded then toEmbedded item else toBinding item.

Definition insertion (embedded : bool) (index : Z) (item : Value) : Call :=
  if embedded then InsertEmbedded index else InsertAny index (toBinding item).

Lemma insertItem_Ok (index : Z) (item : Value) (this : List) :
  (0 ≤ index ≤ Z.of_nat (length (internal this)))%Z →
  insertItem index item this =
  (Ok (),
   setInternal (take (Z.to_nat index) (internal this)
                ++ stored (isEmbedded this) item :: drop (Z.to_nat index) (internal this))
     (called (insertion (isEmbedded this) index item) this)).
Proof.
  intros Hindex. unfold insertItem, insertEmbedded, insertAny, insertAt, stored, insertion.
  destruct (isEmbedded this); cbn [called internal]; by rewrite decide_True.
Qed.

(** ** [pop] and [shift] *)

(** C8: inside a write transaction, [pop] and [shift] return [undefined]
    on an empty list and leave it as it is; otherwise they return the last
    (the first) element through [fromBinding] and remove it. *)
Theorem pop_shift_in_transaction (this : List) :
  inTransaction this = true →
  (internal this = [] →
   pop this = (Ok None, this) ∧ shift this = (Ok None, this)) ∧
  (∀ elements last, internal this = elements ++ [last] →
   let lastIndex := (Z.of_nat (length (internal this)) - 1)%Z in
   pop this =
     (Ok (Some (fromBinding last)),
      setInternal elements (called (Remove lastIndex) (called (GetAny lastIndex) this)))) ∧
  (∀ first elements, internal this = first :: elements →
   shift this =
     (Ok (Some (fromBinding first)),
      setInternal elements (called (Remove 0) (called (GetAny 0) this)))).
Proof.
  intros Htx. split_and!.
  - intros Hempty. unfold pop, shift.
    rewrite !(bind_Ok _ _ this this ()) by by apply assertInTransaction_Ok.
    unfold mbind, Method_bind, bind, size. by rewrite Hempty.
  - intros elements last Hinternal lastIndex.
    assert (length (internal this) = S (length elements)) as Hlength
      by (rewrite Hinternal, length_app; simpl; lia).
    assert (Z.to_nat lastIndex = length elements) as Hlast by lia.
    unfold pop.
    rewrite (bind_Ok _ _ this this ()) by by apply assertInTransaction_Ok.
    rewrite (bind_Ok _ _ this this (Z.of_nat (length (internal this)))) by done.
    fold lastIndex. rewrite decide_True by lia.
    rewrite (bind_Ok _ _ this (called (GetAny lastIndex) this) last).
    2:{ apply getAny_Ok; [lia|]. rewrite Hlast, Hinternal.
        by rewrite lookup_app_r, Nat.sub_diag. }
    erewrite bind_Ok; [|apply remove_Ok; cbn [called internal]; lia].
    cbn [called internal]. rewrite Hlast, Hinternal, delete_middle.
    by rewrite app_nil_r.
  - intros first elements Hinternal. unfold shift.
    rewrite (bind_Ok _ _ this this ()) by by apply assertInTransaction_Ok.
    rewrite (bind_Ok _ _ this this (Z.of_nat (length (internal this)))) by done.
    rewrite decide_True by (rewrite Hinternal; simpl; lia).
    rewrite (bind_Ok _ _ this (called (GetAny 0) this) first)
      by (apply getAny_Ok; [lia|by rewrite Hinternal]).
    erewrite bind_Ok;
      [|apply remove_Ok; cbn [called internal]; rewrite Hinternal; simpl; lia].
    cbn [called internal]. by rewrite Hinternal.
Qed.

(** C10: outside a write transaction [pop] and [shift] raise the
    transaction-state error, whatever the list holds (an empty list too),
    without a call into the engine. *)
Theorem pop_shift_outside_transaction (this : List) :
  inTransaction this = false →
  pop this = (Throw TransactionStateError, this) ∧
  shift this = (Throw TransactionStateError, this).
Proof.
  intros Htx. unfold pop, shift, mbind, Method_bind, bind, assertInTransaction.
  by rewrite Htx.
Qed.

(** ** [splice] *)

Definition calledAll (made : list Call) (this : List) : List :=
  {| inTransaction := inTransaction this; isEmbedded := isEmbedded this;
     internal := internal this; calls := calls this ++ made |}.

Lemma calledAll_nil (this : List) : calledAll [] this = this.
Proof. destruct this. unfold calledAll. simpl. by rewrite app_nil_r. Qed.

Lemma calledAll_called (call : Call) (made : list Call) (this : List) :
  calledAll made (called call this) = calledAll (call :: made) this.
Proof. unfold calledAll, called. simpl. by rewrite <-app_assoc. Qed.

Lemma calledAll_setInternal (elements : list BindingValue) (made : list Call) (this : List) :
  calledAll made (setInternal elements this) = setInternal elements (calledAll made this).
Proof. done. Qed.

Lemma calledAll_calledAll (made made' : list Call) (this : List) :
  calledAll made' (calledAll made this) = calledAll (made ++ made') this.
Proof. unfold calledAll. simpl. by rewrite <-app_assoc. Qed.

Lemma setInternal_setInternal (elements elements' : list BindingValue) (this : List) :
  setInternal elements' (setInternal elements this) = setInternal elements' this.
Proof. done. Qed.

(** The first loop reads the elements at [start .. start + count - 1], in
    that order, and changes nothing. *)
Lemma getRange_Ok (count start : nat) (this : List) :
  start + count ≤ length (internal this) →
  getRange (seqZ (Z.of_nat start) (Z.of_nat count)) this =
  (Ok (fromBinding <$> take count (drop start (internal this))),
   calledAll (GetAny <$> seqZ (Z.of_nat start) (Z.of_nat count)) this).
Proof.
  revert start this. induction count as [|count IH]; intros start this Hrange.
  - simpl. by rewrite calledAll_nil.
  - rewrite seqZ_cons by lia.
    replace (Z.succ (Z.of_nat start)) with (Z.of_nat (S start)) by lia.
    replace (Z.pred (Z.of_nat (S count))) with (Z.of_nat count) by lia.
    destruct (lookup_lt_is_Some_2 (internal this) start ltac:(lia)) as [value Hvalue].
    cbn [getRange].
    erewrite bind_Ok; [|apply getAny_Ok; [lia|by rewrite Nat2Z.id]].
    erewrite bind_Ok; [|apply IH; cbn [called internal]; lia].
    cbn [called internal fmap list_fmap]. unfold mret, Method_ret, ret.
    rewrite calledAll_called.
    by rewrite (drop_S _ _ _ Hvalue).
Qed.

(** The second loop removes the same elements, the highest index first. *)
Lemma removeEach_Ok (count start : nat) (this : List) :
  start + count ≤ length (internal this) →
  removeEach (reverse (seqZ (Z.of_nat start) (Z.of_nat count))) this =
  (Ok (),
   setInternal (take start (internal this) ++ drop (start + count) (internal this))
     (calledAll (Remove <$> reverse (seqZ (Z.of_nat start) (Z.of_nat count))) this)).
Proof.
  revert this. induction count as [|count IH]; intros this Hrange.
  - simpl. rewrite calledAll_nil, Nat.add_0_r, take_drop. by destruct this.
  - rewrite seqZ_S, reverse_app. cbn [reverse rev_append app removeEach].
    erewrite bind_Ok; [|apply remove_Ok; lia].
    rewrite IH by (cbn [called internal setInternal]; rewrite length_delete; [lia|];
                   apply lookup_lt_is_Some_2; lia).
    cbn [called internal setInternal fmap list_fmap].
    rewrite calledAll_setInternal, setInternal_setInternal, calledAll_called.
    replace (Z.to_nat (Z.of_nat start + Z.of_nat count)) with (start + count) by lia.
    rewrite delete_take_drop.
    rewrite take_app_le by (rewrite length_take; lia).
    rewrite take_take, Nat.min_l by lia.
    rewrite drop_app_length' by (rewrite length_take; lia).
    by replace (start + S count) with (S (start + count)) by lia.
Qed.

(** The third loop inserts the items, in argument order, from [start] on. *)
Lemma insertItems_Ok (items : list Value) (start : nat) (this : List) :
  start ≤ length (internal this) →
  insertItems (Z.of_nat start) items this =
  (Ok (),
   setInternal (take start (internal this)
                ++ (stored (isEmbedded this) <$> items)
                ++ drop start (internal this))
     (calledAll (imap (λ offset item,
                         insertion (isEmbedded this)
                           (Z.of_nat start + Z.of_nat offset) item) items) this)).
Proof.
  revert start this. induction items as [|item items IH]; intros start this Hstart.
  - simpl. rewrite calledAll_nil, take_drop. by destruct this.
  - cbn [insertItems].
    erewrite bind_Ok; [|apply insertItem_Ok; lia].
    replace (Z.of_nat start + 1)%Z with (Z.of_nat (S start)) by lia.
    rewrite IH.
    2:{ cbn [called internal setInternal].
        rewrite length_app, length_take. simpl. rewrite length_drop. lia. }
    cbn [called internal setInternal isEmbedded fmap list_fmap imap].
    rewrite calledAll_setInternal, setInternal_setInternal, calledAll_called.
    rewrite Nat2Z.id.
    assert (length (take start (internal this)) = start) as Hlength
      by (rewrite length_take; lia).
    rewrite (cons_middle _ (take start (internal this))).
    rewrite (app_assoc (take start (internal this)) [_]).
    rewrite take_app_length', drop_app_length'
      by (rewrite length_app, Hlength; simpl; lia).
    rewrite <-!app_assoc. cbn [app].
    replace (Z.of_nat start + Z.of_nat 0)%Z with (Z.of_nat start) by lia.
    do 4 f_equal. apply imap_ext. intros offset item' _. simpl. f_equal. lia.
Qed.

(** [splice] as the specification words it: a negative [start] counts from
    the end and clamps to [0], a [start] beyond the length clamps to the
    length, an omitted [deleteCount] removes through the end; the result is
    the removed elements in their order, and the elements that remain, with
    the items in place of the removed ones. *)
Definition startAsSpecified (size start : Z) : Z :=
  if decide (start < 0)%Z then Z.max (size + start) 0 else Z.min start size.

Definition endAsSpecified (size start : Z) (deleteCount : option Z) : Z :=
  match deleteCount with
  | Some deleteCount => Z.max start (Z.min (start + deleteCount) size)
  | None => size
  end.

Definition spliceAsSpecified (start : Z) (deleteCount : option Z)
    (items elements : list BindingValue) : list BindingValue * list BindingValue :=
  let size := Z.of_nat (length elements) in
  let start := startAsSpecified size start in
  let end_ := endAsSpecified size start deleteCount in
  (take (Z.to_nat (end_ - start)) (drop (Z.to_nat start) elements),
   take (Z.to_nat start) elements ++ items ++ drop (Z.to_nat end_) elements).

(** The engine calls as the specification orders them: the reads, the
    removals from the highest index downward, then the insertions in
    argument order at the normalized start. *)
Definition callsAsSpecified (embedded : bool) (start end_ : Z) (items : list Value)
    : list Call :=
  (GetAny <$> seqZ start (end_ - start))
  ++ (Remove <$> reverse (seqZ start (end_ - start)))
  ++ imap (λ offset item, insertion embedded (start + Z.of_nat offset) item) items.

(** An argument that is a number, or omitted. *)
Definition optionalNumber (n : option Z) : JsValue :=
  match n with
  | Some n => JsNumber n
  | None => JsUndefined
  end.

(** Inside a write transaction and for a [start] that is not below
    [-length], [splice] does what the specification says. *)
Lemma splice_as_specified (this : List) (start : Z) (deleteCount : option Z)
    (items : list Value) :
  inTransaction this = true →
  (- Z.of_nat (length (internal this)) ≤ start)%Z →
  let size := Z.of_nat (length (internal this)) in
  let start' := startAsSpecified size start in
  let end' := endAsSpecified size start' deleteCount in
  let specified :=
    spliceAsSpecified start deleteCount (stored (isEmbedded this) <$> items)
      (internal this) in
  splice (JsNumber start) (optionalNumber deleteCount) items this =
  (Ok (fromBinding <$> specified.1),
   setInternal specified.2
     (calledAll (callsAsSpecified (isEmbedded this) start' end' items) this)).
Proof.
  intros Htx Hstart size start' end' specified.
  unfold splice.
  rewrite (bind_Ok _ _ this this ()) by by apply assertInTransaction_Ok.
  rewrite (bind_Ok _ _ this this start) by done.
  rewrite (bind_Ok _ _ this this size) by done.
  assert ((if decide ((if decide (start < 0)%Z then (size + start)%Z else start) > size)%Z
           then size
           else if decide (start < 0)%Z then (size + start)%Z else start) = start')
    as ->.
  { unfold start', startAsSpecified. repeat case_decide; lia. }
  assert (0 ≤ start' ≤ size)%Z as Hstart'.
  { unfold start', startAsSpecified. case_decide; lia. }
  assert (start' ≤ end' ≤ size)%Z as Hend'.
  { unfold end', endAsSpecified. destruct deleteCount; lia. }
  assert (seqZ start'
            (match optionalNumber deleteCount with
             | JsNumber deleteCount => Z.min (start' + deleteCount) size
             | _ => size
             end - start') = seqZ start' (end' - start')) as ->.
  { unfold end', endAsSpecified.
    destruct deleteCount as [deleteCount|]; simpl; [|done].
    destruct (decide (start' ≤ Z.min (start' + deleteCount) size)%Z).
    - by rewrite Z.max_r by lia.
    - by rewrite !seqZ_nil by lia. }
  unfold specified, spliceAsSpecified, callsAsSpecified.
  fold size. fold start'. fold end'.
  destruct (Z_of_nat_complete start') as [from Hfrom]; [lia|].
  destruct (Z_of_nat_complete (end' - start')) as [count Hcount]; [lia|].
  rewrite Hcount, Hfrom, !Nat2Z.id.
  replace (Z.to_nat end') with (from + count) by lia.
  erewrite bind_Ok; [|apply getRange_Ok; lia].
  erewrite bind_Ok; [|apply removeEach_Ok; cbn [calledAll internal]; lia].
  erewrite bind_Ok.
  2:{ apply insertItems_Ok. cbn [calledAll setInternal internal].
      rewrite length_app, length_take. lia. }
  cbn [calledAll setInternal internal isEmbedded].
  unfold mret, Method_ret, ret. f_equal.
  rewrite !calledAll_setInternal, !setInternal_setInternal, !calledAll_calledAll.
  assert (length (take from (internal this)) = from) as Hlength
    by (rewrite length_take; lia).
  rewrite take_app_length', drop_app_length' by done.
  done.
Qed.

(** C3: on a list of three elements, [splice(-5)] leaves [start] at
    [3 + (-5) = -2]; the first thing it does is [internal.getAny(-2)], and
    the engine's bounds error ends the call with the list as it was. As
    specified, [start] would be [0] and the three elements would be removed
    and returned. *)
Theorem splice_start_below_negative_length (a b c : BindingValue) (embedded : bool) :
  let this := {| inTransaction := true; isEmbedded := embedded;
                 internal := [a; b; c]; calls := [] |} in
  splice (JsNumber (-5)) JsUndefined [] this =
    (Throw outOfBounds, called (GetAny (-2)) this) ∧
  spliceAsSpecified (-5) None [] [a; b; c] = ([a; b; c], []).
Proof. done. Qed.

End WithHelpers.

(** A list of two strings, marshalled as they are. *)
Definition twoStrings (inTransaction : bool) : @List string :=
  {| inTransaction := inTransaction; isEmbedded := false;
     internal := ["a"; "b"]; calls := [] |}.

Lemma pop_shift_in_transaction_twoStrings :
  pop id (twoStrings true) =
    (Ok (Some "b"),
     {| inTransaction := true; isEmbedded := false; internal := ["a"];
        calls := [GetAny 1; Remove 1] |}) ∧
  shift id (twoStrings true) =
    (Ok (Some "a"),
     {| inTransaction := true; isEmbedded := false; internal := ["b"];
        calls := [GetAny 0; Remove 0] |}).
Proof.
  destruct (pop_shift_in_transaction id (twoStrings true) eq_refl)
    as (_ & Hpop & Hshift).
  split; [exact (Hpop ["a"] "b" eq_refl)|exact (Hshift "a" ["b"] eq_refl)].
Defined.

(** An empty list outside a write transaction. *)
Definition emptyOutsideTransaction : @List string :=
  {| inTransaction := false; isEmbedded := false; internal := []; calls := [] |}.

Lemma pop_shift_outside_transaction_empty :
  pop id emptyOutsideTransaction = (Throw TransactionStateError, emptyOutsideTransaction) ∧
  shift id emptyOutsideTransaction = (Throw TransactionStateError, emptyOutsideTransaction).
Proof. exact (pop_shift_outside_transaction id emptyOutsideTransaction eq_refl). Defined.

(** [splice(-1)] on a list of three elements removes and returns the last
    one, and two elements remain. *)
Lemma splice_last_of_three :
  splice id id id (JsNumber (-1)) JsUndefined []
    {| inTransaction := true; isEmbedded := false;
       internal := ["a"; "b"; "c"]; calls := [] |} =
  (Ok ["c"],
   {| inTransaction := true; isEmbedded := false; internal := ["a"; "b"];
      calls := [GetAny 2; Remove 2] |}).
Proof.
  exact (splice_as_specified id id id
           {| inTransaction := true; isEmbedded := false;
              internal := ["a"; "b"; "c"]; calls := [] |}
           (-1) None [] eq_refl ltac:(simpl; lia)).
Defined.

End ListAdapter.

(** * [Dictionary.js]: the notification callback *)

Module DictionaryAdapter.

Section WithWorld.

(** Whatever the user's callback can read and change: the dictionary it is
    handed (the proxy) and the rest of the program's state. *)
Context {World : Type}.

(** The keys of a change set, as the engine hands them over and as the
    callback receives them. *)
Record ChangeSet (Key : Type) := {
  deletions : list Key;
  insertions : list Key;
  modifications : list Key;
}.
Global Arguments deletions {Key} _.
Global Arguments insertions {Key} _.
Global Arguments modifications {Key} _.

(** A user callback: it runs on the world, and returns or throws. *)
Definition Callback : Type := ChangeSet string → World → Result unit * World.

(** A task queued on the event loop. The wrapper queues one kind only,
    [() => { throw err; }]. *)
Inductive Task :=
| Rethrow (err : Exception).

Definition run (task : Task) : Result unit :=
  match task with
  | Rethrow err => Throw err
  end.

(** The program's state and the event loop's queue of immediates. *)
Record Runtime := {
  world : World;
  immediates : list Task;
}.

(** [setImmediate(task)] *)
Definition setImmediate (task : Task) (runtime : Runtime) : Runtime :=
  {| world := world runtime; immediates := immediates runtime ++ [task] |}.

(** One turn of the event loop's immediates phase: the oldest task runs, on
    a stack of its own. *)
Definition turn (runtime : Runtime) : Result unit * Runtime :=
  match immediates runtime with
  | [] => (Ok (), runtime)
  | task :: tasks => (run task, {| world := world runtime; immediates := tasks |})
  end.

(** Modelled from the spec: [assert.string(value)] of "./internal". *)
Definition assertString (value : JsValue) : Result string :=
  match value with
  | JsString s => Ok s
  | _ => Throw (AssertionError "Expected value to be a string")
  end.

(** The body of the [try]: the three [map]s, then the user's callback. *)
Definition invoke (callback : Callback) (changes : ChangeSet JsValue) (w : World)
    : Result unit * World :=
  match mapM assertString (deletions changes) with
  | Throw err => (Throw err, w)
  | Ok deletions =>
      match mapM assertString (insertions changes) with
      | Throw err => (Throw err, w)
      | Ok insertions =>
          match mapM assertString (modifications changes) with
          | Throw err => (Throw err, w)
          | Ok modifications =>
              callback {| deletions := deletions; insertions := insertions;
                          modifications := modifications |} w
          end
      end
  end.

(** The function handed to [addKeyBasedNotificationCallback]: what the
    engine calls to deliver a change.
    [try { callback(...) } catch (err) { setImmediate(() => { throw err; }); }] *)
Definition notificationCallback (callback : Callback) (changes : ChangeSet JsValue)
    (runtime : Runtime) : Result unit * Runtime :=
  match invoke callback changes (world runtime) with
  | (Ok _, w) => (Ok (), {| world := w; immediates := immediates runtime |})
  | (Throw err, w) =>
      (Ok (), setImmediate (Rethrow err) {| world := w; immediates := immediates runtime |})
  end.

(** C9: a delivery always returns to the engine, whatever the callback
    does. When the callback (or one of the assertions on the keys) throws
    [err], nothing is thrown into the delivery; a task is queued behind the
    immediates already waiting, and [err] is thrown when the event loop runs
    that task. *)
Theorem notificationCallback_defers_exceptions
    (callback : Callback) (changes : ChangeSet JsValue) (runtime : Runtime) :
  ∃ runtime',
    notificationCallback callback changes runtime = (Ok (), runtime') ∧
    world runtime' = (invoke callback changes (world runtime)).2 ∧
    match (invoke callback changes (world runtime)).1 with
    | Ok _ => immediates runtime' = immediates runtime
    | Throw err =>
        ∃ task, immediates runtime' = immediates runtime ++ [task] ∧
                run task = Throw err
    end.
Proof.
  unfold notificationCallback.
  destruct (invoke callback changes (world runtime)) as [[[]|err] w]; simpl.
  - by eexists.
  - eexists. split_and!; [done..|]. by exists (Rethrow err).
Qed.

(** With nothing else waiting, the next turn of the event loop is what
    throws the callback's exception. *)
Lemma notificationCallback_throws_on_next_turn
    (callback : Callback) (changes : ChangeSet JsValue) (w : World) (err : Exception) :
  (invoke callback changes w).1 = Throw err →
  let runtime := {| world := w; immediates := [] |} in
  (notificationCallback callback changes runtime).1 = Ok () ∧
  (turn (notificationCallback callback changes runtime).2).1 = Throw err.
Proof.
  intros Hthrow runtime. unfold notificationCallback. subst runtime. simpl.
  by destruct (invoke callback changes w) as [[[]|err'] w']; simplify_eq/=.
Qed.

End WithWorld.

End DictionaryAdapter.

(** * More on strings *)

Lemma length_append (s t : string) :
  String.length (s +:+ t) = (String.length s + String.length t)%nat.
Proof. induction s as [|c s IH]; simpl; [done|]. by rewrite IH. Qed.

Lemma append_assoc (s t u : string) : (s +:+ t) +:+ u = s +:+ t +:+ u.
Proof.
  induction s as [|c s IH]; [done|].
  change (String c ((s +:+ t) +:+ u) = String c (s +:+ t +:+ u)). by rewrite IH.
Qed.

Lemma substring_all (s : string) : String.substring 0 (String.length s) s = s.
Proof. induction s as [|c s IH]; simpl; [done|]. by rewrite IH. Qed.

Lemma substring_append_prefix (s t : string) :
  String.substring 0 (String.length s) (s +:+ t) = s.
Proof.
  induction s as [|c s IH]; simpl; [by destruct t|]. by rewrite IH.
Qed.

Lemma substring_append_suffix (s t : string) (m : nat) :
  String.substring (String.length s) m (s +:+ t) = String.substring 0 m t.
Proof. induction s as [|c s IH]; simpl; [done|]. apply IH. Qed.

Lemma endsWith_append (s suffix : string) : endsWith (s +:+ suffix) suffix = true.
Proof.
  unfold endsWith. rewrite length_append. rewrite decide_True by lia.
  replace (String.length s + String.length suffix - String.length suffix)%nat
    with (String.length s) by lia.
  rewrite substring_append_suffix, substring_all. by apply bool_decide_eq_true.
Qed.

Lemma dropEnd_append (s suffix : string) :
  dropEnd (String.length suffix) (s +:+ suffix) = s.
Proof.
  unfold dropEnd. rewrite length_append.
  replace (String.length s + String.length suffix - String.length suffix)%nat
    with (String.length s) by lia.
  apply substring_append_prefix.
Qed.

(** * More on [mapM] and on ordered objects *)

Lemma mapM_Result_Ok_2 {A B} (f : A → Result B) (l : list A) (k : list B) :
  Forall2 (λ x y, f x = Ok y) l k → mapM f l = Ok k.
Proof.
  induction 1 as [|x y l k Hx _ IH]; [done|].
  by rewrite mapM_Result_cons, Hx, IH.
Qed.

Lemma mapM_Result_ext_in {A B} (f g : A → Result B) (l : list A) :
  (∀ x, x ∈ l → f x = g x) → mapM f l = mapM g l.
Proof.
  induction l as [|x l IH]; intros Hext; [done|].
  rewrite !mapM_Result_cons, (Hext x) by left.
  rewrite IH; [done|]. intros y Hy. apply Hext. by right.
Qed.

(** The first element that fails decides the error. *)
Lemma mapM_Result_Throw {A B} (f : A → Result B)
    (accepted : list A) (results : list B) (bad : A) (e : Exception) (rest : list A) :
  Forall2 (λ x y, f x = Ok y) accepted results → f bad = Throw e →
  mapM f (accepted ++ bad :: rest) = Throw e.
Proof.
  induction 1 as [|x y l k Hx _ IH]; intros Hbad; cbn [app].
  - by rewrite mapM_Result_cons, Hbad.
  - rewrite mapM_Result_cons, Hx, IH by done. done.
Qed.


(** * [schema/normalize.js]: more of its behaviour *)

Module SchemaFacts.

Import Schema.

(** The three collection suffixes exclude one another. *)
Lemma collection_suffix_exclusive (type suffix suffix' : string) :
  suffix ∈ ["[]"; "<>"; "{}"] → suffix' ∈ ["[]"; "<>"; "{}"] → suffix ≠ suffix' →
  endsWith type suffix = true → endsWith type suffix' = false.
Proof.
  intros Hs Hs' Hne E.
  repeat (apply elem_of_cons in Hs as [->|Hs]); [..|by apply elem_of_nil in Hs];
    (repeat (apply elem_of_cons in Hs' as [->|Hs']); [..|by apply elem_of_nil in Hs']);
    try done;
    match goal with
    | H : endsWith _ ?s1 = true |- endsWith _ ?s2 = false =>
        eapply (endsWith_exclusive _ s1 s2); [reflexivity|reflexivity|done|exact H]
    end.
Qed.

Section WithTypeMappings.

Variable TYPE_MAPPINGS : gset string.
Variable ALLOW_VALUES_ARRAYS : bool.

Local Abbreviation normalizePropertyType := (normalizePropertyType TYPE_MAPPINGS).
Local Abbreviation normalizePropertySchemaObject :=
  (normalizePropertySchemaObject TYPE_MAPPINGS).
Local Abbreviation normalizePropertySchema := (normalizePropertySchema TYPE_MAPPINGS).
Local Abbreviation normalizeProperty := (normalizeProperty TYPE_MAPPINGS).
Local Abbreviation normalizeObjectSchema :=
  (normalizeObjectSchema TYPE_MAPPINGS ALLOW_VALUES_ARRAYS).
Local Abbreviation normalizeRealmSchema :=
  (normalizeRealmSchema TYPE_MAPPINGS ALLOW_VALUES_ARRAYS).

(** ** A collection shorthand next to an explicit [objectType] *)

Definition shorthandMessage (suffix : string) : string :=
  "Expected no 'objectType' in property schema, when using '" +:+ suffix +:+ "' shorthand".

Lemma normalizePropertyType_suffix_not_allowed (type suffix : string) :
  suffix ∈ ["[]"; "<>"; "{}"] → endsWith type suffix = true →
  normalizePropertyType type false = Throw (AssertionError (shorthandMessage suffix)).
Proof.
  intros Hsuffix E. rewrite normalizePropertyType_eq.
  assert (∀ suffix', suffix' ∈ ["[]"; "<>"; "{}"] → suffix ≠ suffix' →
            endsWith type suffix' = false) as Hother
    by (intros suffix' ? ?; by apply (collection_suffix_exclusive type suffix suffix')).
  repeat (apply elem_of_cons in Hsuffix as [->|Hsuffix]);
    [..|by apply elem_of_nil in Hsuffix].
  - by rewrite E.
  - assert (endsWith type "[]" = false) as -> by (apply Hother; [repeat constructor|done]).
    by rewrite E.
  - assert (endsWith type "[]" = false) as -> by (apply Hother; [repeat constructor|done]).
    assert (endsWith type "<>" = false) as -> by (apply Hother; [repeat constructor|done]).
    by rewrite E.
Qed.

(** A declaration that gives [objectType] as a string and also uses a
    collection suffix in [type] is refused. *)
Theorem normalizePropertySchema_objectType_and_shorthand
    (name : string) (schema : gmap string JsValue) (type objectType suffix : string) :
  get schema "type" = JsString type →
  get schema "objectType" = JsString objectType →
  suffix ∈ ["[]"; "<>"; "{}"] → endsWith type suffix = true →
  normalizePropertySchema name (PropertyObject schema) =
  Throw (AssertionError (shorthandMessage suffix)).
Proof.
  intros Htype HobjectType Hsuffix E. simpl.
  rewrite (normalizePropertySchemaObject_eq _ _ _ type) by done.
  assert (get (delete "type" schema) "objectType" = JsString objectType) as ->.
  { unfold get in *. by rewrite lookup_delete_ne. }
  cbn [typeof]. rewrite bool_decide_eq_false_2 by (intros H; by apply H).
  by rewrite (normalizePropertyType_suffix_not_allowed type suffix).
Qed.

(** ** Collections of a plain item type *)

(** [{type, objectType, optional}], as the three collection cases build it. *)
Definition collection (type : string) (objectType : JsValue) (optional : bool)
    : gmap string JsValue :=
  {[ "type" := JsString type; "objectType" := objectType; "optional" := JsBool optional ]}.

(** What the three cases make of a parsed item. *)
Definition objectTypeOf (item : gmap string JsValue) : JsValue :=
  if bool_decide (get item "type" = JsString "object")
  then get item "objectType" else get item "type".

Definition optionalOf (ofObject : bool) (item : gmap string JsValue) : bool :=
  if bool_decide (get item "type" = JsString "object")
  then ofObject else truthy (get item "optional").

Lemma collection_eq (type : string) (objectOptional : bool) (item : gmap string JsValue) :
  ({[ "type" := JsString type;
      "objectType" := if bool_decide (get item "type" = JsString "object")
                      then get item "objectType" else get item "type";
      "optional" := if bool_decide (get item "type" = JsString "object")
                    then JsBool objectOptional
                    else JsBool (truthy (get item "optional")) ]} : gmap string JsValue)
  = collection type (objectTypeOf item) (optionalOf objectOptional item).
Proof.
  unfold collection, objectTypeOf, optionalOf.
  by destruct (bool_decide (get item "type" = JsString "object")).
Qed.

(** The three suffix cases, on a string written as item and suffix. *)
Lemma normalizePropertyType_list_of (itemType : string) :
  normalizePropertyType (itemType +:+ "[]") true =
  normalizePropertyType itemType true ≫= λ item,
  assert (bool_decide (get item "type" = JsString "object")
          || negb (truthy (get item "objectType")))
    ("Unexpected nested object type " +:+ toString (get item "objectType")) ≫= λ _,
  Ok (collection "list" (objectTypeOf item) (optionalOf false item)).
Proof.
  rewrite normalizePropertyType_list by apply endsWith_append.
  replace (dropEnd 2 (itemType +:+ "[]")) with itemType
    by (symmetry; apply (dropEnd_append itemType "[]")).
  destruct (normalizePropertyType itemType true) as [item|]; [simpl|done].
  by rewrite collection_eq.
Qed.

Lemma normalizePropertyType_set_of (itemType : string) :
  itemType ≠ "" →
  normalizePropertyType (itemType +:+ "<>") true =
  normalizePropertyType itemType true ≫= λ item,
  Ok (collection "set" (objectTypeOf item) (optionalOf true item)).
Proof.
  intros Hitem. rewrite normalizePropertyType_eq.
  rewrite (collection_suffix_exclusive _ "<>" "[]"), endsWith_append
    by first [apply endsWith_append|done|repeat constructor].
  replace (dropEnd 2 (itemType +:+ "<>")) with itemType
    by (symmetry; apply (dropEnd_append itemType "<>")). simpl.
  rewrite bool_decide_eq_true_2 by done.
  destruct (normalizePropertyType itemType true) as [item|]; [simpl|done].
  by rewrite collection_eq.
Qed.

Lemma normalizePropertyType_dictionary_of (itemType : string) :
  itemType ≠ "" →
  normalizePropertyType (itemType +:+ "{}") true =
  normalizePropertyType itemType true ≫= λ item,
  Ok (collection "dictionary" (objectTypeOf item) (optionalOf true item)).
Proof.
  intros Hitem. rewrite normalizePropertyType_eq.
  rewrite (collection_suffix_exclusive _ "{}" "[]"),
    (collection_suffix_exclusive _ "{}" "<>"), endsWith_append
    by first [apply endsWith_append|done|repeat constructor].
  replace (dropEnd 2 (itemType +:+ "{}")) with itemType
    by (symmetry; apply (dropEnd_append itemType "{}")). simpl.
  rewrite bool_decide_eq_true_2 by done.
  destruct (normalizePropertyType itemType true) as [item|]; [simpl|done].
  by rewrite collection_eq.
Qed.

(** A plain item type that names an object schema, or a directly mappable
    type other than the collections and ["object"]. *)
Definition itemTypeName (itemType : string) : Prop :=
  plain itemType ∧ itemType ≠ "" ∧
  (itemType ∈ TYPE_MAPPINGS →
   itemType ≠ "dictionary" ∧ itemType ≠ "set" ∧ itemType ≠ "object").

Lemma normalizePropertyType_itemTypeName (itemType : string) :
  itemTypeName itemType →
  ∃ item,
    normalizePropertyType itemType true = Ok item ∧
    objectTypeOf item = JsString itemType ∧
    optionalOf false item
      = (bool_decide (itemType ∈ TYPE_MAPPINGS) && bool_decide (itemType = "mixed")) ∧
    optionalOf true item
      = (bool_decide (itemType ∉ TYPE_MAPPINGS) || bool_decide (itemType = "mixed")) ∧
    (bool_decide (get item "type" = JsString "object")
     || negb (truthy (get item "objectType"))) = true.
Proof.
  intros (Hplain & Hne & Hmappable).
  destruct (decide (itemType ∈ TYPE_MAPPINGS)) as [Hin|Hin].
  - destruct (Hmappable Hin) as (Hd & Hs & Ho).
    destruct (decide (itemType = "mixed")) as [->|Hm].
    + exists {[ "type" := JsString "mixed"; "optional" := JsBool true ]}. split.
      { rewrite normalizePropertyType_eq. destruct Hplain as (-> & -> & -> & ->).
        by rewrite (bool_decide_eq_true_2 _ Hin). }
      rewrite (bool_decide_eq_true_2 _ Hin), (bool_decide_eq_false_2 (_ ∉ _)) by auto.
      by vm_compute.
    + eexists. split; [by apply normalizePropertyType_mappable|].
      unfold objectTypeOf, optionalOf, get.
      rewrite !lookup_singleton_eq, !lookup_singleton_ne by done. simpl.
      rewrite (bool_decide_eq_false_2 (JsString itemType = JsString "object"))
        by congruence.
      rewrite (bool_decide_eq_true_2 _ Hin), (bool_decide_eq_false_2 (_ ∉ _)) by auto.
      by rewrite (bool_decide_eq_false_2 _ Hm).
  - eexists. split; [by apply normalizePropertyType_object|].
    unfold objectTypeOf, optionalOf, get.
    rewrite !lookup_insert_eq. simpl.
    rewrite lookup_insert_ne, lookup_insert_eq by done. simpl.
    by rewrite (bool_decide_eq_false_2 _ Hin), (bool_decide_eq_true_2 _ Hin).
Qed.

Lemma collection_of_itemTypeName (itemType : string) :
  itemTypeName itemType →
  let mappable := bool_decide (itemType ∈ TYPE_MAPPINGS) in
  let object := bool_decide (itemType ∉ TYPE_MAPPINGS) in
  let mixed := bool_decide (itemType = "mixed") in
  normalizePropertyType (itemType +:+ "[]") true =
    Ok (collection "list" (JsString itemType) (mappable && mixed)) ∧
  normalizePropertyType (itemType +:+ "<>") true =
    Ok (collection "set" (JsString itemType) (object || mixed)) ∧
  normalizePropertyType (itemType +:+ "{}") true =
    Ok (collection "dictionary" (JsString itemType) (object || mixed)).
Proof.
  intros Hitem mappable object mixed.
  destruct (normalizePropertyType_itemTypeName _ Hitem)
    as (item & Hparse & HobjectType & Hlist & Helements & Hassert).
  destruct Hitem as (_ & Hne & _).
  rewrite normalizePropertyType_list_of, normalizePropertyType_set_of,
    normalizePropertyType_dictionary_of, Hparse by done. simpl.
  by rewrite Hassert, HobjectType, Hlist, Helements.
Qed.

(** The object type of [X[]], [X<>] and [X{}] is [X]. The elements of a list
    are optional only for ["mixed"]; those of a set or a dictionary are
    optional for ["mixed"] and for the name of an object schema. *)
Theorem normalizePropertyType_collections (itemType : string) :
  itemTypeName itemType →
  normalizePropertyType (itemType +:+ "[]") true =
    Ok (collection "list" (JsString itemType)
          (bool_decide (itemType ∈ TYPE_MAPPINGS) && bool_decide (itemType = "mixed"))) ∧
  normalizePropertyType (itemType +:+ "<>") true =
    Ok (collection "set" (JsString itemType)
          (bool_decide (itemType ∉ TYPE_MAPPINGS) || bool_decide (itemType = "mixed"))) ∧
  normalizePropertyType (itemType +:+ "{}") true =
    Ok (collection "dictionary" (JsString itemType)
          (bool_decide (itemType ∉ TYPE_MAPPINGS) || bool_decide (itemType = "mixed"))).
Proof. apply collection_of_itemTypeName. Qed.

(** ** Collections of collections *)

Lemma get_collection (type : string) (objectType : JsValue) (optional : bool) :
  get (collection type objectType optional) "type" = JsString type ∧
  get (collection type objectType optional) "objectType" = objectType ∧
  get (collection type objectType optional) "optional" = JsBool optional.
Proof.
  unfold collection, get. split_and!.
  - by rewrite lookup_insert_eq.
  - by rewrite lookup_insert_ne, lookup_insert_eq.
  - by rewrite !lookup_insert_ne, lookup_singleton_eq.
Qed.

Lemma append_not_empty (s suffix : string) : suffix ≠ "" → s +:+ suffix ≠ "".
Proof.
  intros Hsuffix Hempty. apply (f_equal String.length) in Hempty.
  rewrite length_append in Hempty. destruct suffix; [done|simpl in Hempty; lia].
Qed.

(** The parser refuses a list of lists, of sets or of dictionaries; a set
    or a dictionary of lists it does not: its object type is ["list"]. *)
Lemma nested_collections (itemType : string) :
  itemTypeName itemType →
  (∀ suffix, suffix ∈ ["[]"; "<>"; "{}"] →
     normalizePropertyType ((itemType +:+ suffix) +:+ "[]") true =
     Throw (AssertionError ("Unexpected nested object type " +:+ itemType))) ∧
  (∃ optional,
     normalizePropertyType ((itemType +:+ "[]") +:+ "<>") true =
       Ok (collection "set" (JsString "list") optional) ∧
     normalizePropertyType ((itemType +:+ "[]") +:+ "{}") true =
       Ok (collection "dictionary" (JsString "list") optional)).
Proof.
  intros Hitem. destruct (collection_of_itemTypeName _ Hitem) as (Hlist & Hset & Hdictionary).
  split.
  - intros suffix Hsuffix. rewrite normalizePropertyType_list_of.
    assert (∃ type optional,
              type ≠ "object" ∧
              normalizePropertyType (itemType +:+ suffix) true =
              Ok (collection type (JsString itemType) optional))
      as (type & optional & Htype & ->).
    { repeat (apply elem_of_cons in Hsuffix as [->|Hsuffix]);
        [..|by apply elem_of_nil in Hsuffix];
        [exists "list"|exists "set"|exists "dictionary"]; eexists;
        (split; [done|first [exact Hlist|exact Hset|exact Hdictionary]]). }
    simpl. unfold objectTypeOf, optionalOf.
    destruct (get_collection type (JsString itemType) optional) as (-> & -> & ->).
    rewrite bool_decide_eq_false_2 by congruence. simpl.
    destruct Hitem as (_ & Hne & _). by rewrite bool_decide_eq_true_2.
  - eexists.
    rewrite normalizePropertyType_set_of, normalizePropertyType_dictionary_of, Hlist
      by by apply append_not_empty.
    simpl. unfold objectTypeOf, optionalOf.
    destruct (get_collection "list" (JsString itemType)
                (bool_decide (itemType ∈ TYPE_MAPPINGS) && bool_decide (itemType = "mixed")))
      as (-> & -> & ->).
    rewrite bool_decide_eq_false_2 by done. simpl.
    split; reflexivity.
Qed.

(** A property declared as a list of lists, of sets or of dictionaries
    ([X[][]], [X<>[]], [X{}[]]) is refused, with the item type in the
    message. *)
Theorem normalizePropertySchema_list_of_collections (name itemType suffix : string) :
  itemTypeName itemType → suffix ∈ ["[]"; "<>"; "{}"] →
  normalizePropertySchema name (Shorthand ((itemType +:+ suffix) +:+ "[]")) =
  Throw (AssertionError ("Unexpected nested object type " +:+ itemType)).
Proof.
  intros Hitem Hsuffix. destruct (nested_collections _ Hitem) as [Hlists _].
  unfold Schema.normalizePropertySchema. by rewrite Hlists.
Qed.

(** A set of lists is not refused, neither by the parser nor by the
    validator: with ["set"] a key of [TYPE_MAPPINGS], the property [X[]<>] is
    normalized to a set with object type ["list"]. *)
Theorem set_of_lists_accepted (name itemType : string) :
  itemTypeName itemType → "set" ∈ TYPE_MAPPINGS →
  ∃ result,
    normalizePropertySchema name (Shorthand ((itemType +:+ "[]") +:+ "<>")) = Ok result ∧
    get result "type" = JsString "set" ∧
    get result "objectType" = JsString "list" ∧
    ∀ objectSchemaName, validateCanonicalPropertySchema objectSchemaName result = Ok ().
Proof.
  intros Hitem Hset.
  destruct (nested_collections _ Hitem) as (_ & optional & Hparse & _).
  unfold Schema.normalizePropertySchema. rewrite Hparse. simpl.
  rewrite (normalizePropertySchemaObject_eq _ _ _ "set")
    by apply (get_collection "set" (JsString "list") optional).
  assert (normalizePropertyType "set" false =
          Ok {[ "type" := JsString "set"; "objectType" := JsString "mixed";
                "optional" := JsBool true ]}) as Hset'.
  { rewrite normalizePropertyType_eq. by rewrite (bool_decide_eq_true_2 _ Hset). }
  assert (get (delete "type" (collection "set" (JsString "list") optional)) "objectType"
          = JsString "list") as -> by (by destruct optional; vm_compute).
  cbn [typeof]. rewrite bool_decide_eq_false_2 by (intros H; by apply H).
  rewrite Hset'.
  exists {[ "name" := JsString name; "type" := JsString "set";
            "objectType" := JsString "list"; "optional" := JsBool optional;
            "indexed" := JsBool false; "mapTo" := JsString name ]}.
  destruct optional; (split_and!; [vm_compute; reflexivity..|]);
    intros objectSchemaName; vm_compute; reflexivity.
Qed.

(** ** The shorthands without an item type *)

Lemma normalizePropertyType_bare :
  normalizePropertyType "<>" true = Ok (collection "set" (JsString "mixed") false) ∧
  normalizePropertyType "{}" true = Ok (collection "dictionary" (JsString "mixed") true).
Proof.
  split; rewrite normalizePropertyType_eq.
  - change (endsWith "<>" "[]") with false. change (endsWith "<>" "<>") with true.
    cbv iota. vm_compute. reflexivity.
  - change (endsWith "{}" "[]") with false. change (endsWith "{}" "<>") with false.
    change (endsWith "{}" "{}") with true.
    cbv iota. vm_compute. reflexivity.
Qed.

Lemma normalizePropertyType_collection_name (type : string) :
  type = "set" ∨ type = "dictionary" →
  normalizePropertyType type false
  = Ok (if bool_decide (type ∈ TYPE_MAPPINGS)
        then {[ "type" := JsString type; "objectType" := JsString "mixed";
                "optional" := JsBool true ]}
        else {[ "type" := JsString "object"; "objectType" := JsString type;
                "optional" := JsBool true ]}).
Proof.
  intros [->| ->]; rewrite normalizePropertyType_eq.
  - change (endsWith "set" "[]") with false. change (endsWith "set" "<>") with false.
    change (endsWith "set" "{}") with false. change (endsWith "set" "?") with false.
    cbv iota. by destruct (bool_decide ("set" ∈ TYPE_MAPPINGS)).
  - change (endsWith "dictionary" "[]") with false.
    change (endsWith "dictionary" "<>") with false.
    change (endsWith "dictionary" "{}") with false.
    change (endsWith "dictionary" "?") with false.
    cbv iota. by destruct (bool_decide ("dictionary" ∈ TYPE_MAPPINGS)).
Qed.

(** The set shorthand without an item type, ["<>"], is refused: its item
    defaults to [{type: "mixed"}], which is not optional. The dictionary
    shorthand without an item type, ["{}"], is accepted: its item defaults to
    [{type: "mixed", optional: true}]. *)
Theorem normalizePropertySchema_bare (name : string) :
  normalizePropertySchema name (Shorthand "<>")
    = Throw (AssertionError "Mixed values should be declared as optional") ∧
  ∃ result,
    normalizePropertySchema name (Shorthand "{}") = Ok result ∧
    get result "objectType" = JsString "mixed" ∧
    get result "optional" = JsBool true.
Proof.
  destruct normalizePropertyType_bare as [Hset Hdictionary].
  unfold Schema.normalizePropertySchema. rewrite Hset, Hdictionary. simpl. split.
  - rewrite (normalizePropertySchemaObject_eq _ _ _ "set") by (vm_compute; reflexivity).
    change (get (delete "type" (collection "set" (JsString "mixed") false)) "objectType")
      with (JsString "mixed").
    cbn [typeof]. rewrite bool_decide_eq_false_2 by (intros H; by apply H).
    rewrite normalizePropertyType_collection_name by by left.
    destruct (bool_decide ("set" ∈ TYPE_MAPPINGS)); vm_compute; reflexivity.
  - rewrite (normalizePropertySchemaObject_eq _ _ _ "dictionary")
      by (vm_compute; reflexivity).
    change (get (delete "type" (collection "dictionary" (JsString "mixed") true))
              "objectType") with (JsString "mixed").
    cbn [typeof]. rewrite bool_decide_eq_false_2 by (intros H; by apply H).
    rewrite normalizePropertyType_collection_name by by right.
    destruct (bool_decide ("dictionary" ∈ TYPE_MAPPINGS)).
    + exists {[ "name" := JsString name; "type" := JsString "dictionary";
                "objectType" := JsString "mixed"; "optional" := JsBool true;
                "indexed" := JsBool false; "mapTo" := JsString name ]}.
      split_and!; vm_compute; reflexivity.
    + exists {[ "name" := JsString name; "type" := JsString "object";
                "objectType" := JsString "mixed"; "optional" := JsBool true;
                "indexed" := JsBool false; "mapTo" := JsString name ]}.
      split_and!; vm_compute; reflexivity.
Qed.

(** ** How a declaration and its parsed type are merged *)

(** The parsed type has no other fields than these three. *)
Lemma normalizePropertyType_fields
    (type : string) (allowObjectType : bool) (parsed : gmap string JsValue) (k : string) :
  normalizePropertyType type allowObjectType = Ok parsed →
  k ≠ "type" → k ≠ "objectType" → k ≠ "optional" →
  parsed !! k = None.
Proof.
  intros Hparsed Htype HobjectType Hoptional.
  assert (∀ a b c : JsValue,
            ({[ "type" := a; "objectType" := b; "optional" := c ]}
              : gmap string JsValue) !! k = None) as Hthree
    by (intros; by rewrite !lookup_insert_ne, lookup_singleton_ne).
  rewrite normalizePropertyType_eq in Hparsed.
  repeat match type of Hparsed with
         | (if ?c then _ else _) = _ => destruct c
         | (assert ?c ?m ≫= _) = _ => destruct (assert c m); [simpl in Hparsed|done]
         | (?m ≫= _) = _ =>
             let item := fresh "item" in destruct m as [item|]; [simpl in Hparsed|done]
         end;
    injection Hparsed as <-; try apply Hthree;
    by rewrite ?lookup_insert_ne, lookup_singleton_ne.
Qed.

(** The first value that is not [undefined]. *)
Fixpoint firstDefined (values : list JsValue) : JsValue :=
  match values with
  | [] => JsUndefined
  | JsUndefined :: values => firstDefined values
  | value :: _ => value
  end.

(** [{indexed: false, optional: false, mapTo: name}] *)
Definition defaults (name : string) : gmap string JsValue :=
  {[ "indexed" := JsBool false; "optional" := JsBool false; "mapTo" := JsString name ]}.

Lemma get_removeUndefinedValues (o : gmap string JsValue) (k : string) :
  get (removeUndefinedValues o) k = get o k.
Proof.
  unfold get, removeUndefinedValues.
  destruct (o !! k) as [v|] eqn:Hk; simpl.
  - destruct (decide (v = JsUndefined)) as [->|Hv].
    + by rewrite (proj2 (map_lookup_filter_None _ _ _)) by (right; naive_solver).
    + by rewrite (map_lookup_filter_Some_2 _ _ _ _ Hk Hv).
  - by rewrite (proj2 (map_lookup_filter_None _ _ _)) by by left.
Qed.

Lemma get_union (o1 o2 : gmap string JsValue) (k : string) :
  (∀ v, o1 !! k = Some v → v ≠ JsUndefined) →
  get (o1 ∪ o2) k = firstDefined [get o1 k; get o2 k].
Proof.
  intros Hdefined. unfold get. rewrite lookup_union.
  destruct (o1 !! k) as [v|] eqn:Hk; simpl.
  - specialize (Hdefined v eq_refl). destruct (o2 !! k); simpl; by destruct v.
  - destruct (o2 !! k) as [v|]; simpl; [by destruct v|done].
Qed.

Lemma removeUndefinedValues_defined (o : gmap string JsValue) (k : string) (v : JsValue) :
  removeUndefinedValues o !! k = Some v → v ≠ JsUndefined.
Proof. unfold removeUndefinedValues. by intros [_ ?]%map_lookup_filter_Some. Qed.

Lemma normalizePropertySchemaObject_fields
    (name : string) (schema result : gmap string JsValue) :
  normalizePropertySchemaObject name schema = Ok result →
  ∃ type parsed,
    get schema "type" = JsString type ∧
    normalizePropertyType type
      (bool_decide (typeof (get schema "objectType") ≠ "string")) = Ok parsed ∧
    get result "name" = JsString name ∧
    get result "type" = get parsed "type" ∧
    ∀ k, k ≠ "name" → k ≠ "type" →
         get result k = firstDefined [get schema k; get parsed k; get (defaults name) k].
Proof.
  unfold Schema.normalizePropertySchemaObject.
  destruct (get schema "type") as [| | | |type] eqn:Htype; try done.
  assert (get (delete "type" schema) "objectType" = get schema "objectType") as ->
    by (unfold get; by rewrite lookup_delete_ne).
  destruct (normalizePropertyType type _) as [parsed|] eqn:Hparsed; [simpl|done].
  set (merged := removeUndefinedValues (delete "type" schema)
                 ∪ removeUndefinedValues parsed).
  match goal with |- (?guard ≫= _) = _ → _ => destruct guard as [[]|] end;
    [simpl|done].
  intros [= <-]. exists type, parsed. split_and!; [done..| | |].
  - apply get_Some, lookup_insert_eq.
  - rewrite get_insert_ne, get_union_r by done. subst merged.
    rewrite get_union by apply removeUndefinedValues_defined.
    rewrite !get_removeUndefinedValues.
    assert (get (delete "type" schema) "type" = JsUndefined) as ->
      by (unfold get; by rewrite lookup_delete_eq).
    simpl. by destruct (get parsed "type").
  - intros k Hname Hk. rewrite get_insert_ne by done.
    assert (∀ v, merged !! k = Some v → v ≠ JsUndefined) as Hdefined.
    { intros v [Hv|[_ Hv]]%lookup_union_Some_raw;
        by apply removeUndefinedValues_defined in Hv. }
    rewrite get_union by done. fold (defaults name). subst merged.
    rewrite get_union by apply removeUndefinedValues_defined.
    rewrite !get_removeUndefinedValues.
    assert (get (delete "type" schema) k = get schema k) as ->
      by (unfold get; by rewrite lookup_delete_ne).
    simpl. destruct (get schema k); try done. by destruct (get parsed k).
Qed.

(** The canonical property of an accepted declaration, field by field:
    [name] is the property's name, whatever the declaration says; [type] is
    the type of the parsed type string; any other field is what the
    declaration says, else what the parsed type says, else the default
    ([indexed: false], [optional: false], [mapTo: name]). *)
Theorem normalizePropertySchema_fields
    (name : string) (schema : gmap string JsValue) (type : string)
    (parsed result : gmap string JsValue) :
  get schema "type" = JsString type →
  normalizePropertyType type
    (bool_decide (typeof (get schema "objectType") ≠ "string")) = Ok parsed →
  normalizePropertySchema name (PropertyObject schema) = Ok result →
  get result "name" = JsString name ∧
  get result "type" = get parsed "type" ∧
  ∀ k, k ≠ "name" → k ≠ "type" →
       get result k = firstDefined [get schema k; get parsed k; get (defaults name) k].
Proof.
  intros Htype Hparsed Hresult.
  apply normalizePropertySchemaObject_fields in Hresult
    as (type' & parsed' & Htype' & Hparsed' & Hfields).
  rewrite Htype in Htype'. injection Htype' as <-.
  rewrite Hparsed in Hparsed'. by injection Hparsed' as <-.
Qed.

(** ** Accepted object schemas *)

(** The properties a declaration declares, as a mapping: those of the
    object, or the array rewritten. *)
Definition declaredEntries (decl : ObjectSchema) : list (string * PropertySchemaArg) :=
  match properties decl with
  | PropertiesArray entries => fromEntries (entryOfArrayItem <$> entries)
  | PropertiesObject entries => entries
  end.

(** An array of properties is usable when the flag allows it. *)
Definition usable (decl : ObjectSchema) : bool :=
  match properties decl with
  | PropertiesArray _ => ALLOW_VALUES_ARRAYS
  | PropertiesObject _ => true
  end.

Lemma normalizeObjectSchema_object (decl : ObjectSchema) :
  normalizeObjectSchema (ObjectArg decl) =
  if usable decl then
    mapM (normalizeProperty (name decl) (primaryKey decl)) (declaredEntries decl)
    ≫= λ properties,
    Ok {| Canonical.constructor := None;
          Canonical.name := name decl;
          Canonical.primaryKey := primaryKey decl;
          Canonical.asymmetric := js_or (asymmetric decl) (JsBool false);
          Canonical.embedded := js_or (embedded decl) (JsBool false);
          Canonical.properties := fromEntries properties |}
  else Throw (Error "Array of properties are no longer supported").
Proof.
  destruct decl as [name primaryKey asymmetric embedded [entries|entries]];
    unfold usable, declaredEntries; simpl.
  - rewrite normalizeObjectSchema_equation_2. destruct ALLOW_VALUES_ARRAYS; [|done].
    by rewrite normalizeObjectSchema_equation_3.
  - by rewrite normalizeObjectSchema_equation_3.
Qed.

Lemma normalizeObjectSchema_inv
    (arg : ObjectSchemaArg) (decl : ObjectSchema) (schema : Canonical.ObjectSchema) :
  declaration arg = Some decl →
  normalizeObjectSchema arg = Ok schema →
  ∃ properties,
    mapM (normalizeProperty (name decl) (primaryKey decl)) (declaredEntries decl)
      = Ok properties ∧
    schema =
      {| Canonical.constructor := match arg with
                                  | ClassArg arg => Some arg
                                  | ObjectArg _ => None
                                  end;
         Canonical.name := name decl;
         Canonical.primaryKey := primaryKey decl;
         Canonical.asymmetric := js_or (asymmetric decl) (JsBool false);
         Canonical.embedded := js_or (embedded decl) (JsBool false);
         Canonical.properties := fromEntries properties |}.
Proof.
  assert (∀ inner,
    normalizeObjectSchema (ObjectArg decl) = Ok inner →
    ∃ properties,
      mapM (normalizeProperty (name decl) (primaryKey decl)) (declaredEntries decl)
        = Ok properties ∧
      inner = {| Canonical.constructor := None;
                 Canonical.name := name decl;
                 Canonical.primaryKey := primaryKey decl;
                 Canonical.asymmetric := js_or (asymmetric decl) (JsBool false);
                 Canonical.embedded := js_or (embedded decl) (JsBool false);
                 Canonical.properties := fromEntries properties |}) as Hobject.
  { intros inner. rewrite normalizeObjectSchema_object.
    destruct (usable decl); [|done].
    destruct (mapM _ _) as [properties|]; [simpl|done]. intros [= <-]. eauto. }
  destruct arg as [class|object]; simpl; intros Hdecl.
  - rewrite normalizeObjectSchema_equation_1, Hdecl.
    destruct (assert _ _); [simpl|done].
    destruct (Schema.normalizeObjectSchema _ _ (ObjectArg decl)) as [inner|] eqn:Hinner;
      [simpl|done].
    intros [= <-]. destruct (Hobject inner eq_refl) as (properties & Hall & ->).
    eauto.
  - injection Hdecl as ->. apply Hobject.
Qed.

Lemma normalizePropertySchema_name
    (name : string) (schema : PropertySchemaArg) (result : gmap string JsValue) :
  normalizePropertySchema name schema = Ok result → get result "name" = JsString name.
Proof.
  destruct schema as [shorthand|schema]; simpl.
  - destruct (normalizePropertyType shorthand true) as [parsed|]; [simpl|done].
    by intros (? & ? & _ & _ & ? & _)%normalizePropertySchemaObject_fields.
  - by intros (? & ? & _ & _ & ? & _)%normalizePropertySchemaObject_fields.
Qed.

Lemma normalizeProperty_valid (argName argPrimaryKey : JsValue)
    (name : string) (property : PropertySchemaArg)
    (name' : string) (canonical : gmap string JsValue) :
  normalizeProperty argName argPrimaryKey (name, property) = Ok (name', canonical) →
  name' = name ∧ get canonical "name" = JsString name ∧
  validateCanonicalPropertySchema argName canonical = Ok ().
Proof.
  unfold Schema.normalizeProperty.
  destruct (normalizePropertySchema name property) as [result|] eqn:Hresult; [simpl|done].
  apply normalizePropertySchema_name in Hresult.
  match goal with
  | |- (validateCanonicalPropertySchema ?n ?c ≫= _) = _ → _ =>
      destruct (validateCanonicalPropertySchema n c) as [[]|] eqn:Hvalid
  end; [simpl|done].
  intros [= <- <-]. split_and!; [done| |done].
  case_bool_decide; [by rewrite get_insert_ne|done].
Qed.

(** What the validator's acceptance means. *)
Lemma validateCanonicalPropertySchema_Ok
    (objectSchemaName : JsValue) (property : gmap string JsValue) :
  validateCanonicalPropertySchema objectSchemaName property = Ok () →
  get property "objectType" ≠ JsString "" ∧
  (get property "type" = JsString "list" →
   get property "objectType" ≠ JsString "list" ∧
   (truthy (get property "optional") = true →
    isPrimitive (get property "objectType") = true)).
Proof.
  unfold validateCanonicalPropertySchema.
  destruct (bool_decide_reflect (get property "type" = JsString "list"));
    destruct (bool_decide_reflect (get property "objectType" = JsString "list"));
    destruct (bool_decide_reflect (get property "objectType" = JsString ""));
    destruct (isPrimitive (get property "objectType"));
    destruct (truthy (get property "optional")); simpl; try done; naive_solver.
Qed.

(** Every property of an accepted object schema is stored under its own
    name and satisfies what the validator checks: no empty object type, no
    list of lists, and no optional elements in a list of non-primitives. *)
Theorem normalizeObjectSchema_properties_valid
    (arg : ObjectSchemaArg) (decl : ObjectSchema) (schema : Canonical.ObjectSchema)
    (key : string) (property : gmap string JsValue) :
  declaration arg = Some decl →
  normalizeObjectSchema arg = Ok schema →
  getEntry key (Canonical.properties schema) = Some property →
  get property "name" = JsString key ∧
  get property "objectType" ≠ JsString "" ∧
  (get property "type" = JsString "list" →
   get property "objectType" ≠ JsString "list" ∧
   (truthy (get property "optional") = true →
    isPrimitive (get property "objectType") = true)).
Proof.
  intros Hdecl Hschema Hentry.
  destruct (normalizeObjectSchema_inv _ _ _ Hdecl Hschema) as (properties & Hall & ->).
  simpl in Hentry. rewrite getEntry_fromEntries in Hentry.
  apply getEntry_Some in Hentry. rewrite elem_of_reverse in Hentry.
  apply mapM_Result_Ok in Hall.
  apply list_elem_of_lookup in Hentry as [i Hi].
  destruct (Forall2_lookup_r _ _ _ _ _ Hall Hi) as ([n d] & _ & Hproperty).
  apply normalizeProperty_valid in Hproperty as (-> & Hname & Hvalid).
  split; [done|]. by eapply validateCanonicalPropertySchema_Ok.
Qed.


(** ** A primary key that names no property *)

Definition withPrimaryKey (primaryKey : JsValue) (decl : ObjectSchema) : ObjectSchema :=
  {| name := name decl; primaryKey := primaryKey; asymmetric := asymmetric decl;
     embedded := embedded decl; properties := properties decl |}.

(** A [primaryKey] that is not the name of a declared property is not
    refused and forces no index: the properties are normalized (or refused)
    as they are without a primary key. *)
Theorem normalizeObjectSchema_primaryKey_elsewhere
    (decl : ObjectSchema) (primaryKey : JsValue) :
  (∀ name, name ∈ propertyNames decl → JsString name ≠ primaryKey) →
  Canonical.properties <$> normalizeObjectSchema (ObjectArg (withPrimaryKey primaryKey decl))
  = Canonical.properties <$> normalizeObjectSchema (ObjectArg (withPrimaryKey JsUndefined decl)).
Proof.
  intros Helsewhere. rewrite !normalizeObjectSchema_object.
  change (usable (withPrimaryKey _ decl)) with (usable decl).
  change (declaredEntries (withPrimaryKey _ decl)) with (declaredEntries decl).
  destruct (usable decl); [simpl|done].
  rewrite (mapM_Result_ext_in _ (normalizeProperty (name decl) JsUndefined)).
  { by destruct (mapM _ _). }
  intros [n d] Hin. unfold Schema.normalizeProperty.
  assert (n ∈ propertyNames decl) as Hn.
  { apply (list_elem_of_fmap_2 fst) in Hin. simpl in Hin.
    unfold declaredEntries, propertyNames in *.
    destruct (properties decl); [by apply fromEntries_keys|done]. }
  by rewrite !bool_decide_eq_false_2 by auto.
Qed.

(** ** Realm schemas *)

(** A realm schema is normalized object schema by object schema, in order;
    it is accepted when every one is, and refused with the error of the
    first one that is refused. *)
Theorem normalizeRealmSchema_all_or_first_error (schema : list ObjectSchemaArg) :
  (∀ canonical,
     normalizeRealmSchema schema = Ok canonical ↔
     Forall2 (λ arg objectSchema, normalizeObjectSchema arg = Ok objectSchema)
       schema canonical) ∧
  (∀ accepted canonical refused e rest,
     schema = accepted ++ refused :: rest →
     Forall2 (λ arg objectSchema, normalizeObjectSchema arg = Ok objectSchema)
       accepted canonical →
     normalizeObjectSchema refused = Throw e →
     normalizeRealmSchema schema = Throw e).
Proof.
  split.
  - intros canonical. split; [apply mapM_Result_Ok|apply mapM_Result_Ok_2].
  - intros accepted canonical refused e rest -> Haccepted Hrefused.
    by eapply mapM_Result_Throw.
Qed.

End WithTypeMappings.

(** ** On the type names of the specification *)

Local Ltac mapped := apply (bool_decide_unpack _); vm_compute; exact I.

Lemma itemTypeName_int : itemTypeName TYPE_MAPPINGS_spec "int".
Proof. split_and!; [by vm_compute..|done|]. intros _. by split_and!. Qed.

Lemma itemTypeName_Person : itemTypeName TYPE_MAPPINGS_spec "Person".
Proof. split_and!; [by vm_compute..|done|]. intros _. by split_and!. Qed.

(** [{type: "Person[]", objectType: "Person"}] *)
Lemma normalizePropertySchema_objectType_and_shorthand_friends :
  normalizePropertySchema TYPE_MAPPINGS_spec "friends"
    (PropertyObject {[ "type" := JsString "Person[]"; "objectType" := JsString "Person" ]})
  = Throw (AssertionError
             "Expected no 'objectType' in property schema, when using '[]' shorthand").
Proof.
  apply (normalizePropertySchema_objectType_and_shorthand
           TYPE_MAPPINGS_spec "friends" _ "Person[]" "Person" "[]").
  - vm_compute. reflexivity.
  - vm_compute. reflexivity.
  - left.
  - vm_compute. reflexivity.
Defined.

(** ["Person[]"], ["Person<>"] and ["Person{}"] *)
Lemma normalizePropertyType_collections_Person :
  normalizePropertyType TYPE_MAPPINGS_spec "Person[]" true =
    Ok (collection "list" (JsString "Person") false) ∧
  normalizePropertyType TYPE_MAPPINGS_spec "Person<>" true =
    Ok (collection "set" (JsString "Person") true) ∧
  normalizePropertyType TYPE_MAPPINGS_spec "Person{}" true =
    Ok (collection "dictionary" (JsString "Person") true).
Proof.
  exact (normalizePropertyType_collections TYPE_MAPPINGS_spec "Person" itemTypeName_Person).
Defined.

(** ["int[][]"] *)
Lemma normalizePropertySchema_list_of_collections_int :
  normalizePropertySchema TYPE_MAPPINGS_spec "matrix" (Shorthand "int[][]")
  = Throw (AssertionError "Unexpected nested object type int").
Proof.
  apply (normalizePropertySchema_list_of_collections
           TYPE_MAPPINGS_spec "matrix" "int" "[]" itemTypeName_int).
  left.
Defined.

(** ["int[]<>"] *)
Lemma set_of_lists_accepted_int :
  ∃ result,
    normalizePropertySchema TYPE_MAPPINGS_spec "tags" (Shorthand "int[]<>") = Ok result ∧
    get result "type" = JsString "set" ∧
    get result "objectType" = JsString "list" ∧
    ∀ objectSchemaName, validateCanonicalPropertySchema objectSchemaName result = Ok ().
Proof.
  apply (set_of_lists_accepted TYPE_MAPPINGS_spec "tags" "int" itemTypeName_int).
  mapped.
Defined.

(** [{type: "int?", indexed: true, name: "years"}] as the property [age]:
    the declaration's [indexed] and the parsed [optional] are kept, [mapTo]
    is the default, and the declaration's [name] is not. *)
Lemma normalizePropertySchema_fields_age :
  let schema : gmap string JsValue :=
    {[ "type" := JsString "int?"; "indexed" := JsBool true; "name" := JsString "years" ]} in
  let parsed : gmap string JsValue :=
    {[ "optional" := JsBool true; "type" := JsString "int" ]} in
  let result : gmap string JsValue :=
    {[ "name" := JsString "age"; "type" := JsString "int"; "optional" := JsBool true;
       "indexed" := JsBool true; "mapTo" := JsString "age" ]} in
  get result "name" = JsString "age" ∧
  get result "type" = get parsed "type" ∧
  ∀ k, k ≠ "name" → k ≠ "type" →
       get result k = firstDefined [get schema k; get parsed k; get (defaults "age") k].
Proof.
  intros schema parsed result.
  apply (normalizePropertySchema_fields TYPE_MAPPINGS_spec "age" schema "int?" parsed result).
  - vm_compute. reflexivity.
  - vm_compute. reflexivity.
  - vm_compute. reflexivity.
Defined.

(** The [friends] of [Person], a list of objects. *)
Lemma normalizeObjectSchema_properties_valid_Person :
  ∃ schema property,
    normalizeObjectSchema TYPE_MAPPINGS_spec false Person = Ok schema ∧
    getEntry "friends" (Canonical.properties schema) = Some property ∧
    get property "name" = JsString "friends" ∧
    get property "objectType" ≠ JsString "" ∧
    (get property "type" = JsString "list" →
     get property "objectType" ≠ JsString "list" ∧
     (truthy (get property "optional") = true →
      isPrimitive (get property "objectType") = true)).
Proof.
  assert (match normalizeObjectSchema TYPE_MAPPINGS_spec false Person with
          | Ok schema =>
              match getEntry "friends" (Canonical.properties schema) with
              | Some _ => true
              | None => false
              end
          | Throw _ => false
          end = true) as Hfound by (vm_compute; reflexivity).
  destruct (normalizeObjectSchema TYPE_MAPPINGS_spec false Person)
    as [schema|e] eqn:Hschema; [|discriminate Hfound].
  destruct (getEntry "friends" (Canonical.properties schema))
    as [property|] eqn:Hproperty; [|discriminate Hfound].
  exists schema, property. split; [reflexivity|]. split; [exact Hproperty|].
  exact (normalizeObjectSchema_properties_valid
           TYPE_MAPPINGS_spec false Person _ schema "friends" property
           eq_refl Hschema Hproperty).
Defined.


(** [{name: "Task", properties: {id: "int", title: "string"}}] *)
Definition TaskProperties : ObjectSchema :=
  {| name := JsString "Task"; primaryKey := JsUndefined;
     asymmetric := JsUndefined; embedded := JsUndefined;
     properties := PropertiesObject
       [("id", Shorthand "int"); ("title", Shorthand "string")] |}.

(** With [primaryKey: "uuid"], which [Task] does not declare. *)
Lemma normalizeObjectSchema_primaryKey_elsewhere_Task :
  Canonical.properties <$>
    normalizeObjectSchema TYPE_MAPPINGS_spec false
      (ObjectArg (withPrimaryKey (JsString "uuid") TaskProperties))
  = Canonical.properties <$>
    normalizeObjectSchema TYPE_MAPPINGS_spec false
      (ObjectArg (withPrimaryKey JsUndefined TaskProperties)).
Proof.
  apply (normalizeObjectSchema_primaryKey_elsewhere TYPE_MAPPINGS_spec false).
  intros name Hname.
  apply elem_of_cons in Hname as [->|Hname]; [discriminate|].
  apply elem_of_cons in Hname as [->|Hname]; [discriminate|].
  by apply elem_of_nil in Hname.
Defined.

End SchemaFacts.

(** * [extractGeneric] *)

(** [String.prototype.indexOf] and [String.prototype.substring], the two
    methods [extractGeneric] calls, as ECMAScript defines them: a search that
    starts below 0 starts at 0 and [-1] stands for no occurrence; the bounds
    of [substring] are clamped to the string and swapped when the first
    exceeds the second. *)
Module StringPrototype.

Definition indexOf (searchString : string) (position : Z) (s : string) : Z :=
  match String.index (Z.to_nat position) searchString s with
  | Some i => Z.of_nat i
  | None => (-1)%Z
  end.

Definition substring (indexStart indexEnd : Z) (s : string) : string :=
  let len := Z.of_nat (String.length s) in
  let intStart := Z.min (Z.max indexStart 0%Z) len in
  let intEnd := Z.min (Z.max indexEnd 0%Z) len in
  let from := Z.min intStart intEnd in
  let to := Z.max intStart intEnd in
  String.substring (Z.to_nat from) (Z.to_nat (to - from)%Z) s.

End StringPrototype.

Module Generic.

Import Stdlib.Strings.Ascii.

Record Generic := { typeBase : string; typeArgument : option string }.

Definition extractGeneric (type : string) : Generic :=
  let bracketStart := StringPrototype.indexOf "<" 0%Z type in
  let bracketEnd := StringPrototype.indexOf ">" bracketStart type in
  if decide (bracketStart = (-1)%Z) then
    {| typeBase := type; typeArgument := None |}
  else
    {| typeBase := StringPrototype.substring 0%Z bracketStart type;
       typeArgument := Some (StringPrototype.substring (bracketStart + 1)%Z bracketEnd type) |}.

(** [without c s]: the character [c] does not occur in [s]. *)
Definition without (c : Ascii.ascii) (s : string) : Prop :=
  ∀ i, String.get i s ≠ Some c.

Lemma without_cons (c a : Ascii.ascii) (s : string) :
  without c (String a s) → a ≠ c ∧ without c s.
Proof.
  intros H. split.
  - intros ->. by apply (H 0%nat).
  - intros i. apply (H (S i)).
Qed.

Lemma without_nil (c : Ascii.ascii) : without c "".
Proof. by intros []. Qed.

Lemma without_String (c a : Ascii.ascii) (s : string) :
  a ≠ c → without c s → without c (String a s).
Proof. intros Ha Hs [|i]; simpl; [congruence|apply Hs]. Qed.

Lemma index_without (c : Ascii.ascii) (s : string) :
  without c s → String.index 0 (String c "") s = None.
Proof.
  induction s as [|a s IH]; intros H; [done|].
  apply without_cons in H as [Ha H]. simpl.
  destruct (Ascii.ascii_dec c a) as [->|_]; [done|]. by rewrite IH.
Qed.

Lemma index_first (c : Ascii.ascii) (s rest : string) :
  without c s →
  String.index 0 (String c "") (s +:+ String c rest) = Some (String.length s).
Proof.
  induction s as [|a s IH]; intros H; simpl.
  - destruct (Ascii.ascii_dec c c); [|done]. by destruct rest.
  - apply without_cons in H as [Ha H].
    destruct (Ascii.ascii_dec c a) as [->|_]; [done|]. by rewrite IH.
Qed.

Lemma index_from (pattern s t : string) :
  String.index (String.length s) pattern (s +:+ t)
  = (λ i, String.length s + i)%nat <$> String.index 0 pattern t.
Proof.
  induction s as [|a s IH].
  - change ("" +:+ t) with t. cbn [String.length].
    by destruct (String.index 0 pattern t).
  - change (String a s +:+ t) with (String a (s +:+ t)).
    cbn [String.index String.length]. rewrite IH.
    by destruct (String.index 0 pattern t).
Qed.

Lemma substring_middle (s t rest : string) :
  String.substring (String.length s) (String.length t) (s +:+ t +:+ rest) = t.
Proof. by rewrite substring_append_suffix, substring_append_prefix. Qed.

(** A type without ["<"] is its own base and has no argument. *)
Theorem extractGeneric_plain (type : string) :
  without "<"%char type →
  extractGeneric type = {| typeBase := type; typeArgument := None |}.
Proof.
  intros H. unfold extractGeneric, StringPrototype.indexOf.
  change (Z.to_nat 0) with 0%nat.
  by rewrite (index_without _ _ H).
Qed.

(** [base<argument>rest] is taken apart at the first ["<"] and the first
    [">"] after it; what follows the [">"] is dropped. *)
Theorem extractGeneric_brackets (base argument rest : string) :
  without "<"%char base → without ">"%char argument →
  extractGeneric (base +:+ "<" +:+ argument +:+ ">" +:+ rest)
  = {| typeBase := base; typeArgument := Some argument |}.
Proof.
  intros Hbase Hargument. unfold extractGeneric, StringPrototype.indexOf.
  change (Z.to_nat 0) with 0%nat.
  change ("<" +:+ argument +:+ ">" +:+ rest)
    with (String "<"%char (argument +:+ String ">"%char rest)).
  rewrite (index_first _ _ _ Hbase), Nat2Z.id, index_from.
  cbn [String.index String.prefix].
  destruct (Ascii.ascii_dec ">"%char "<"%char) as [[=]|_].
  rewrite (index_first _ _ _ Hargument). cbn [fmap option_fmap option_map].
  rewrite decide_False by lia.
  unfold StringPrototype.substring.
  rewrite !length_append. cbn [String.length]. rewrite length_append. cbn [String.length].
  f_equal.
  - replace (Z.to_nat _) with 0%nat by lia.
    replace (Z.to_nat _) with (String.length base) by lia.
    apply substring_append_prefix.
  - f_equal.
    replace (Z.to_nat (Z.min _ _)) with (String.length (base +:+ "<"))
      by (rewrite length_append; simpl; lia).
    replace (Z.to_nat _) with (String.length argument) by lia.
    change (String "<"%char (argument +:+ String ">"%char rest))
      with ("<" +:+ argument +:+ String ">"%char rest).
    rewrite <-append_assoc. apply substring_middle.
Qed.

(** A ["<"] that is never closed: [indexOf] answers [-1], [substring] clamps
    it to 0 and swaps its bounds, and the argument is the base with its
    ["<"]. *)
Theorem extractGeneric_unclosed (base rest : string) :
  without "<"%char base → without ">"%char rest →
  extractGeneric (base +:+ "<" +:+ rest)
  = {| typeBase := base; typeArgument := Some (base +:+ "<") |}.
Proof.
  intros Hbase Hrest. unfold extractGeneric, StringPrototype.indexOf.
  change (Z.to_nat 0) with 0%nat.
  change ("<" +:+ rest) with (String "<"%char rest).
  rewrite (index_first _ _ _ Hbase), Nat2Z.id, index_from.
  cbn [String.index String.prefix].
  destruct (Ascii.ascii_dec ">"%char "<"%char) as [[=]|_].
  rewrite (index_without _ _ Hrest). cbn [fmap option_fmap option_map].
  rewrite decide_False by lia.
  unfold StringPrototype.substring.
  rewrite !length_append. cbn [String.length].
  f_equal.
  - replace (Z.to_nat _) with 0%nat by lia.
    replace (Z.to_nat _) with (String.length base) by lia.
    apply substring_append_prefix.
  - f_equal.
    replace (Z.to_nat (Z.min _ _)) with 0%nat by lia.
    replace (Z.to_nat _) with (String.length (base +:+ "<"))
      by (rewrite length_append; simpl; lia).
    change (String "<"%char rest) with ("<" +:+ rest).
    rewrite <-append_assoc. apply substring_append_prefix.
Qed.

Local Ltac absent := repeat (apply without_String; [discriminate|]); apply without_nil.

Lemma extractGeneric_plain_int :
  extractGeneric "int" = {| typeBase := "int"; typeArgument := None |}.
Proof. apply (extractGeneric_plain "int"). absent. Defined.

Lemma extractGeneric_brackets_Dictionary :
  extractGeneric "Dictionary<string>[]"
  = {| typeBase := "Dictionary"; typeArgument := Some "string" |}.
Proof. apply (extractGeneric_brackets "Dictionary" "string" "[]"); absent. Defined.

Lemma extractGeneric_unclosed_Set :
  extractGeneric "Set<int" = {| typeBase := "Set"; typeArgument := Some "Set<" |}.
Proof. apply (extractGeneric_unclosed "Set" "int"); absent. Defined.

End Generic.

(** * [List.js]: the constructor *)

Module ListConstructor.

Local Open Scope Z_scope.

(** The operands of [&] and [~] are read as 32-bit integers. *)
Definition toInt32 (n : Z) : Z := (n + 2 ^ 31) mod 2 ^ 32 - 2 ^ 31.

(** [this.results.type & ~960 /* binding.PropertyType.Flags */] *)
Definition baseType (type : Z) : Z :=
  Z.land (toInt32 type) (toInt32 (Z.lnot (toInt32 960))).

(** [baseType === 7 && internal.objectSchema.tableType === 1]:
    [objectSchema] is what reading [internal.objectSchema.tableType] gives,
    a table type or an exception ("getting the objectSchema off the internal
    will throw if base type isn't object"); it is read only when the left
    operand of [&&] holds. *)
Definition isEmbedded (type : Z) (objectSchema : Result Z) : Result bool :=
  if bool_decide (baseType type = 7)
  then tableType ← objectSchema; Ok (bool_decide (tableType = 1))
  else Ok false.

Lemma toInt32_small (n : Z) : - 2 ^ 31 ≤ n < 2 ^ 31 → toInt32 n = n.
Proof. intros Hn. unfold toInt32. rewrite Z.mod_small; lia. Qed.

Lemma land_low (base : Z) : 0 ≤ base < 64 → Z.land base (Z.lnot 960) = base.
Proof.
  intros Hbase.
  rewrite <-(Z.mod_small base (2 ^ 6)) at 1 by lia.
  rewrite <-Z.land_ones, <-Z.land_assoc by lia.
  change (Z.land (Z.ones 6) (Z.lnot 960)) with (Z.ones 6).
  rewrite Z.land_ones by lia. apply Z.mod_small. lia.
Qed.

(** The flag bits (64, 128, 256 and 512) do not count for the base type. *)
Lemma baseType_flags (base flags : Z) :
  0 ≤ base < 64 → 0 ≤ flags ≤ 960 → Z.land flags (Z.lnot 960) = 0 →
  baseType (Z.lor base flags) = base.
Proof.
  intros Hbase Hflags Hmask. unfold baseType.
  assert (0 ≤ Z.lor base flags ≤ base + flags) as Hlor.
  { split; [apply Z.lor_nonneg; lia|].
    pose proof (Z.add_lor_land base flags).
    assert (0 ≤ Z.land base flags) by (apply Z.land_nonneg; lia). lia. }
  rewrite (toInt32_small (Z.lor _ _)) by lia.
  change (toInt32 (Z.lnot (toInt32 960))) with (Z.lnot 960).
  by rewrite Z.land_lor_distr_l, Hmask, Z.lor_0_r, land_low.
Qed.

(** Whether a list is one of embedded objects does not depend on the flag
    bits of its type: a list whose base type is not [Object] (7) is not, and
    its object schema is not read, so that nothing is raised; a list of
    objects is when the table type of its object schema is [Embedded] (1),
    and what reading the object schema raises is raised. *)
Theorem isEmbedded_base_type (base flags : Z) (objectSchema : Result Z) :
  0 ≤ base < 64 → 0 ≤ flags ≤ 960 → Z.land flags (Z.lnot 960) = 0 →
  isEmbedded (Z.lor base flags) objectSchema =
  if bool_decide (base = 7) then
    match objectSchema with
    | Ok tableType => Ok (bool_decide (tableType = 1))
    | Throw e => Throw e
    end
  else Ok false.
Proof.
  intros Hbase Hflags Hmask. unfold isEmbedded.
  rewrite baseType_flags by done.
  case_bool_decide; [|done]. by destruct objectSchema.
Qed.

(** A list of optional objects (type [7 | 64]) of an embedded table. *)
Lemma isEmbedded_base_type_optional_objects :
  isEmbedded 71 (Ok 1) = Ok true.
Proof.
  exact (isEmbedded_base_type 7 64 (Ok 1)
           ltac:(lia) ltac:(lia) eq_refl).
Defined.

End ListConstructor.

(** * [List.js]: [push] and [unshift] *)

Module ListMethods.

Import ListAdapter.

Section WithHelpers.

Local Open Scope nat_scope.

Context {Value BindingValue : Type}.
Variable fromBinding : BindingValue → Value.
Variable toBinding : Value → BindingValue.
Variable toEmbedded : Value → BindingValue.

Local Abbreviation push := (push toBinding toEmbedded).
Local Abbreviation unshift := (unshift toBinding toEmbedded).
Local Abbreviation splice := (splice fromBinding toBinding toEmbedded).
Local Abbreviation stored := (stored toBinding toEmbedded).
Local Abbreviation insertion := (insertion toBinding).
Local Abbreviation pop := (pop fromBinding).
Local Abbreviation shift := (shift fromBinding).

(** The engine calls that insert [items] from the index [start] on. *)
Definition insertions (embedded : bool) (start : nat) (items : list Value)
    : list (@Call BindingValue) :=
  imap (λ offset item, insertion embedded (Z.of_nat start + Z.of_nat offset) item) items.

Lemma push_run (items : list Value) (this : @List BindingValue) :
  inTransaction this = true →
  push items this =
  (Ok (Z.of_nat (length (internal this) + length items)),
   setInternal (internal this ++ (stored (isEmbedded this) <$> items))
     (calledAll (insertions (isEmbedded this) (length (internal this)) items) this)).
Proof.
  intros Htx. unfold ListAdapter.push.
  rewrite (bind_Ok _ _ this this ()) by by apply assertInTransaction_Ok.
  rewrite (bind_Ok _ _ this this (Z.of_nat (length (internal this)))) by done.
  erewrite bind_Ok; [|by apply insertItems_Ok].
  unfold size. cbn [setInternal calledAll internal].
  rewrite firstn_all, drop_all, app_nil_r.
  by rewrite length_app, length_fmap.
Qed.

Lemma unshift_run (items : list Value) (this : @List BindingValue) :
  inTransaction this = true →
  unshift items this =
  (Ok (Z.of_nat (length items + length (internal this))),
   setInternal ((stored (isEmbedded this) <$> items) ++ internal this)
     (calledAll (insertions (isEmbedded this) 0 items) this)).
Proof.
  intros Htx. unfold ListAdapter.unshift.
  rewrite (bind_Ok _ _ this this ()) by by apply assertInTransaction_Ok.
  erewrite bind_Ok; [|apply (insertItems_Ok _ _ items 0); lia].
  unfold size. cbn [setInternal calledAll internal].
  rewrite take_0, drop_0. cbn [app]. rewrite length_app, length_fmap.
  done.
Qed.

(** [push] inside a write transaction: the items are appended in argument
    order, by insertions at the indices [length], [length + 1], ..., and the
    new length is returned. *)
Theorem push_appends (items : list Value) (this : @List BindingValue) :
  inTransaction this = true →
  ∃ this',
    push items this = (Ok (Z.of_nat (length (internal this) + length items)), this') ∧
    internal this' = internal this ++ (stored (isEmbedded this) <$> items) ∧
    calls this' = calls this ++ insertions (isEmbedded this) (length (internal this)) items ∧
    inTransaction this' = true ∧ isEmbedded this' = isEmbedded this.
Proof. intros Htx. eexists. split; [by apply push_run|done]. Qed.

(** [unshift] inside a write transaction: the items end up in front of the
    list, in argument order, by insertions at the indices 0, 1, ..., and the
    new length is returned. *)
Theorem unshift_prepends (items : list Value) (this : @List BindingValue) :
  inTransaction this = true →
  ∃ this',
    unshift items this = (Ok (Z.of_nat (length items + length (internal this))), this') ∧
    internal this' = (stored (isEmbedded this) <$> items) ++ internal this ∧
    calls this' = calls this ++ insertions (isEmbedded this) 0 items ∧
    inTransaction this' = true ∧ isEmbedded this' = isEmbedded this.
Proof. intros Htx. eexists. split; [by apply unshift_run|done]. Qed.

(** Outside a write transaction [push], [unshift] and [splice] raise the
    transaction-state error before anything else: no call reaches the
    engine and the list is as it was. *)
Theorem mutators_outside_transaction
    (items : list Value) (start deleteCount : JsValue) (this : @List BindingValue) :
  inTransaction this = false →
  push items this = (Throw TransactionStateError, this) ∧
  unshift items this = (Throw TransactionStateError, this) ∧
  splice start deleteCount items this = (Throw TransactionStateError, this).
Proof.
  intros Htx.
  unfold ListAdapter.push, ListAdapter.unshift, ListAdapter.splice,
    mbind, Method_bind, bind, assertInTransaction.
  by rewrite Htx.
Qed.

(** [splice] with a [start] that is not a number fails its assertion, with
    no call into the engine. *)
Theorem splice_start_not_a_number
    (start deleteCount : JsValue) (items : list Value) (this : @List BindingValue) :
  inTransaction this = true →
  typeof start ≠ "number" →
  ∃ message, splice start deleteCount items this = (Throw (AssertionError message), this).
Proof.
  intros Htx Hstart. unfold ListAdapter.splice.
  rewrite (bind_Ok _ _ this this ()) by by apply assertInTransaction_Ok.
  destruct start; try done; by eexists.
Qed.

(** [pop] undoes [push] and [shift] undoes [unshift]: after one item is
    pushed (unshifted), [pop] ([shift]) returns it, as [fromBinding] reads
    what was stored for it, and the list holds what it held before. *)
Theorem pop_push_shift_unshift (item : Value) (this : @List BindingValue) :
  inTransaction this = true →
  (∃ this' this'',
     push [item] this = (Ok (Z.of_nat (length (internal this)) + 1)%Z, this') ∧
     pop this' = (Ok (Some (fromBinding (stored (isEmbedded this) item))), this'') ∧
     internal this'' = internal this) ∧
  (∃ this' this'',
     unshift [item] this = (Ok (Z.of_nat (length (internal this)) + 1)%Z, this') ∧
     shift this' = (Ok (Some (fromBinding (stored (isEmbedded this) item))), this'') ∧
     internal this'' = internal this).
Proof.
  intros Htx. split.
  - rewrite push_run by done.
    set (this' := setInternal _ _).
    assert (inTransaction this' = true) as Htx' by done.
    assert (internal this' = internal this ++ [stored (isEmbedded this) item]) as Hinternal
      by done.
    assert (length (internal this') = S (length (internal this))) as Hlength
      by (rewrite Hinternal, length_app; simpl; lia).
    exists this'. eexists. split_and!.
    + f_equal. f_equal. simpl. lia.
    + unfold ListAdapter.pop.
      rewrite (bind_Ok _ _ this' this' ()) by by apply assertInTransaction_Ok.
      rewrite (bind_Ok _ _ this' this' (Z.of_nat (length (internal this')))) by done.
      rewrite decide_True by lia.
      erewrite bind_Ok.
      2:{ apply getAny_Ok; [lia|].
          replace (Z.to_nat (Z.of_nat (length (internal this')) - 1))
            with (length (internal this)) by lia.
          by rewrite Hinternal, lookup_app_r, Nat.sub_diag. }
      erewrite bind_Ok; [|apply remove_Ok; cbn [called internal]; lia].
      reflexivity.
    + cbn [setInternal called internal].
      replace (Z.to_nat (Z.of_nat (length (internal this')) - 1))
        with (length (internal this)) by lia.
      by rewrite Hinternal, delete_middle, app_nil_r.
  - rewrite unshift_run by done.
    set (this' := setInternal _ _).
    assert (inTransaction this' = true) as Htx' by done.
    assert (internal this' = stored (isEmbedded this) item :: internal this) as Hinternal
      by done.
    exists this'. eexists. split_and!.
    + f_equal. f_equal. simpl. lia.
    + unfold ListAdapter.shift.
      rewrite (bind_Ok _ _ this' this' ()) by by apply assertInTransaction_Ok.
      rewrite (bind_Ok _ _ this' this' (Z.of_nat (length (internal this')))) by done.
      rewrite decide_True by (rewrite Hinternal; simpl; lia).
      erewrite bind_Ok; [|apply getAny_Ok; [lia|by rewrite Hinternal]].
      erewrite bind_Ok;
        [|apply remove_Ok; cbn [called internal]; rewrite Hinternal; simpl; lia].
      reflexivity.
    + cbn [setInternal called internal]. by rewrite Hinternal.
Qed.

End WithHelpers.

Lemma push_appends_twoStrings :
  ∃ this',
    push id id ["c"; "d"] (twoStrings true) = (Ok 4%Z, this') ∧
    internal this' = ["a"; "b"; "c"; "d"] ∧
    calls this' = [InsertAny 2 "c"; InsertAny 3 "d"] ∧
    inTransaction this' = true ∧ isEmbedded this' = false.
Proof. exact (push_appends id id ["c"; "d"] (twoStrings true) eq_refl). Defined.

Lemma unshift_prepends_twoStrings :
  ∃ this',
    unshift id id ["c"; "d"] (twoStrings true) = (Ok 4%Z, this') ∧
    internal this' = ["c"; "d"; "a"; "b"] ∧
    calls this' = [InsertAny 0 "c"; InsertAny 1 "d"] ∧
    inTransaction this' = true ∧ isEmbedded this' = false.
Proof. exact (unshift_prepends id id ["c"; "d"] (twoStrings true) eq_refl). Defined.

Lemma mutators_outside_transaction_twoStrings :
  push id id ["c"] (twoStrings false) = (Throw TransactionStateError, twoStrings false) ∧
  unshift id id ["c"] (twoStrings false) = (Throw TransactionStateError, twoStrings false) ∧
  splice id id id (JsNumber 0) JsUndefined ["c"] (twoStrings false)
  = (Throw TransactionStateError, twoStrings false).
Proof.
  exact (mutators_outside_transaction id id id ["c"] (JsNumber 0) JsUndefined
           (twoStrings false) eq_refl).
Defined.

(** [splice("1")] *)
Lemma splice_start_not_a_number_string :
  ∃ message,
    splice id id id (JsString "1") JsUndefined [] (twoStrings true)
    = (Throw (AssertionError message), twoStrings true).
Proof.
  apply (splice_start_not_a_number id id id (JsString "1") JsUndefined []
           (twoStrings true) eq_refl).
  discriminate.
Defined.

Lemma pop_push_shift_unshift_twoStrings :
  (∃ this' this'',
     push id id ["c"] (twoStrings true) = (Ok 3%Z, this') ∧
     pop id this' = (Ok (Some "c"), this'') ∧
     internal this'' = ["a"; "b"]) ∧
  (∃ this' this'',
     unshift id id ["c"] (twoStrings true) = (Ok 3%Z, this') ∧
     shift id this' = (Ok (Some "c"), this'') ∧
     internal this'' = ["a"; "b"]).
Proof. exact (pop_push_shift_unshift id id id "c" (twoStrings true) eq_refl). Defined.

End ListMethods.

(** * [Dictionary.js]: the proxy handler, [set] and [remove] *)

Module DictionaryMethods.

Section WithHelpers.

(** Host values and the engine's values, with the two marshalling helpers
    the dictionary is handed ([helpers.fromBinding], [helpers.toBinding]). *)
Context {Value BindingValue : Type}.
Variable fromBinding : BindingValue → Value.
Variable toBinding : Value → BindingValue.

(** Modelled from the spec: what the engine's "per-key lookup"
    ([internal.tryGetAny]) answers for a key without a value. *)
Variable undefined : BindingValue.

(** A property key is a string or a symbol ([typeof prop === "string"]). *)
Inductive PropertyKey :=
| StringKey (prop : string)
| SymbolKey (id : nat).

(** [Reflect.get(target, prop, receiver)]: what the [Dictionary] object
    itself has under [prop] (its methods, its symbol-keyed fields); [None]
    is [undefined]. *)
Variable members : PropertyKey → option Value.

(** A call into the engine's dictionary ([binding.Dictionary]). *)
Inductive Call :=
| TryGetAny (key : string)
| InsertAny (key : string) (value : BindingValue)
| TryErase (key : string).

(** A [Dictionary]: its realm's transaction state, the values [internal]
    holds, and the calls made into the engine so far, oldest first. *)
Record Dictionary := {
  inTransaction : bool;
  internal : gmap string BindingValue;
  calls : list Call;
}.

(** A method: it reads and changes the dictionary, and returns or throws. *)
Definition Method (A : Type) : Type := Dictionary → Result A * Dictionary.

Definition ret {A} (a : A) : Method A := λ this, (Ok a, this).
Definition bind {A B} (m : Method A) (f : A → Method B) : Method B := λ this,
  match m this with
  | (Ok a, this) => f a this
  | (Throw e, this) => (Throw e, this)
  end.

Global Instance Dictionary_ret : MRet Method := @ret.
Global Instance Dictionary_bind : MBind Method := λ A B f m, bind m f.

(** Modelled from the spec: [assert.inTransaction(realm)] of "./internal":
    "violation fails with a transaction-state error". *)
Definition assertInTransaction : Method unit := λ this,
  if inTransaction this then (Ok (), this) else (Throw TransactionStateError, this).

Definition called (call : Call) (this : Dictionary) : Dictionary :=
  {| inTransaction := inTransaction this; internal := internal this;
     calls := calls this ++ [call] |}.

Definition setInternal (values : gmap string BindingValue) (this : Dictionary)
    : Dictionary :=
  {| inTransaction := inTransaction this; internal := values; calls := calls this |}.

(** Modelled from the spec: the engine's dictionary, [binding.Dictionary],
    is not part of the sources at hand. It is a "string-keyed mapping" with a
    "per-key lookup, insert, and erase"; erasing "a key that does not exist
    is a no-op success"; "all mutation legality" is the engine's, which
    refuses a change outside a write transaction with an [EngineError]. *)
Definition notInTransaction : Exception :=
  EngineError "Cannot modify managed objects outside of a write transaction.".

Definition tryGetAny (key : string) : Method BindingValue := λ this,
  (Ok (default undefined (internal this !! key)), called (TryGetAny key) this).

Definition insertAny (key : string) (value : BindingValue) : Method unit := λ this,
  let this := called (InsertAny key value) this in
  if inTransaction this
  then (Ok (), setInternal (<[key := value]> (internal this)) this)
  else (Throw notInTransaction, this).

Definition tryErase (key : string) : Method unit := λ this,
  let this := called (TryErase key) this in
  if inTransaction this
  then (Ok (), setInternal (delete key (internal this)) this)
  else (Throw notInTransaction, this).

(** ** [PROXY_HANDLER] *)

Definition handlerGet (prop : PropertyKey) : Method (option Value) :=
  match members prop, prop with
  | None, StringKey prop =>
      value ← tryGetAny prop;
      mret (Some (fromBinding value))
  | value, _ => mret value
  end.

Definition handlerSet (prop : PropertyKey) (value : Value) : Method bool :=
  match prop with
  | StringKey prop => insertAny prop (toBinding value) ;; mret true
  | SymbolKey _ => mret false
  end.

Definition deleteProperty (prop : PropertyKey) : Method bool :=
  match prop with
  | StringKey prop => tryErase prop ;; mret true
  | SymbolKey _ => mret false
  end.

(** ** The methods *)

(** [for (const [key, value] of Object.entries(element)) internal.insertAny(key, toBinding(value, undefined))] *)
Fixpoint insertEach (entries : list (string * Value)) : Method unit :=
  match entries with
  | [] => mret ()
  | (key, value) :: entries => insertAny key (toBinding value) ;; insertEach entries
  end.

(** [element] is given by its own enumerable entries, in order. *)
Definition set (element : list (string * Value)) : Method unit :=
  assertInTransaction ;;
  insertEach element.

(** [for (const k of keys) internal.tryErase(k)] *)
Fixpoint eraseEach (keys : list string) : Method unit :=
  match keys with
  | [] => mret ()
  | k :: keys => tryErase k ;; eraseEach keys
  end.

(** The argument of [remove]: a string, or an array of strings. *)
Inductive KeyArgument :=
| Key (key : string)
| Keys (keys : list string).

Definition remove (key : KeyArgument) : Method unit :=
  assertInTransaction ;;
  let keys := match key with Key key => [key] | Keys keys => keys end in
  eraseEach keys.

(** ** How the engine calls and the sequencing compute *)

Definition calledAll (made : list Call) (this : Dictionary) : Dictionary :=
  {| inTransaction := inTransaction this; internal := internal this;
     calls := calls this ++ made |}.

Lemma run_bind {A B} (m : Method A) (f : A → Method B) (this this' : Dictionary) (a : A) :
  m this = (Ok a, this') → (m ≫= f) this = f a this'.
Proof. unfold mbind, Dictionary_bind, bind. by intros ->. Qed.

Lemma assertInTransaction_run (this : Dictionary) :
  inTransaction this = true → assertInTransaction this = (Ok (), this).
Proof. unfold assertInTransaction. by intros ->. Qed.

Lemma insertAny_run (key : string) (value : BindingValue) (this : Dictionary) :
  inTransaction this = true →
  insertAny key value this =
  (Ok (), setInternal (<[key := value]> (internal this)) (called (InsertAny key value) this)).
Proof. unfold insertAny. cbn [called inTransaction]. by intros ->. Qed.

Lemma tryErase_run (key : string) (this : Dictionary) :
  inTransaction this = true →
  tryErase key this =
  (Ok (), setInternal (delete key (internal this)) (called (TryErase key) this)).
Proof. unfold tryErase. cbn [called inTransaction]. by intros ->. Qed.

(** What [set] leaves in the dictionary: a later entry overwrites an
    earlier one of the same key. *)
Definition inserted (entries : list (string * Value)) (values : gmap string BindingValue)
    : gmap string BindingValue :=
  foldl (λ values entry, <[entry.1 := toBinding entry.2]> values) values entries.

Lemma insertEach_run (entries : list (string * Value)) (this : Dictionary) :
  inTransaction this = true →
  insertEach entries this =
  (Ok (),
   setInternal (inserted entries (internal this))
     (calledAll ((λ entry, InsertAny entry.1 (toBinding entry.2)) <$> entries) this)).
Proof.
  revert this. induction entries as [|[key value] entries IH]; intros this Htx.
  - destruct this. unfold calledAll, setInternal. simpl. by rewrite app_nil_r.
  - cbn [insertEach]. erewrite run_bind; [|by apply insertAny_run].
    rewrite IH by done. unfold calledAll, setInternal, called. simpl.
    by rewrite <-app_assoc.
Qed.

Lemma eraseEach_run (keys : list string) (this : Dictionary) :
  inTransaction this = true →
  eraseEach keys this =
  (Ok (),
   setInternal (foldl (λ values k, delete k values) (internal this) keys)
     (calledAll (TryErase <$> keys) this)).
Proof.
  revert this. induction keys as [|k keys IH]; intros this Htx.
  - destruct this. unfold calledAll, setInternal. simpl. by rewrite app_nil_r.
  - cbn [eraseEach]. erewrite run_bind; [|by apply tryErase_run].
    rewrite IH by done. unfold calledAll, setInternal, called. simpl.
    by rewrite <-app_assoc.
Qed.

Lemma lookup_inserted (entries : list (string * Value))
    (values : gmap string BindingValue) (key : string) :
  inserted entries values !! key =
  match getEntry key (reverse entries) with
  | Some value => Some (toBinding value)
  | None => values !! key
  end.
Proof.
  revert values. induction entries as [|[k v] entries IH]; intros values; [done|].
  change (inserted ((k, v) :: entries) values)
    with (inserted entries (<[k := toBinding v]> values)).
  rewrite IH, reverse_cons, getEntry_app.
  destruct (getEntry key (reverse entries)); [done|]. simpl.
  destruct (decide (key = k)) as [->|Hne].
  - by rewrite lookup_insert_eq.
  - by rewrite lookup_insert_ne.
Qed.

Lemma lookup_erased (keys : list string) (values : gmap string BindingValue) (key : string) :
  foldl (λ values k, delete k values) values keys !! key =
  if decide (key ∈ keys) then None else values !! key.
Proof.
  revert values. induction keys as [|k keys IH]; intros values; [done|].
  cbn [foldl]. rewrite IH.
  destruct (decide (key ∈ keys)) as [Hin|Hin].
  - rewrite decide_True; [done|by right].
  - destruct (decide (key = k)) as [->|Hne].
    + rewrite decide_True by left. apply lookup_delete_eq.
    + rewrite decide_False by (intros [?|?]%elem_of_cons; done).
      by apply lookup_delete_ne.
Qed.

(** ** Reading back what was written *)

(** Inside a write transaction [set] inserts the entries of its argument
    in order and does not fail; afterwards property access answers, for
    every key of the argument that is not a member of the dictionary object,
    the value that was set (marshalled to the engine and back), and every
    other key has what it had. *)
Theorem set_then_get (element : list (string * Value)) (this : Dictionary) :
  inTransaction this = true →
  NoDup element.*1 →
  ∃ this',
    set element this = (Ok (), this') ∧
    inTransaction this' = true ∧
    calls this' =
      calls this ++ ((λ entry, InsertAny entry.1 (toBinding entry.2)) <$> element) ∧
    (∀ key value,
       (key, value) ∈ element → members (StringKey key) = None →
       handlerGet (StringKey key) this'
       = (Ok (Some (fromBinding (toBinding value))), called (TryGetAny key) this')) ∧
    (∀ key, key ∉ element.*1 → internal this' !! key = internal this !! key).
Proof.
  intros Htx Hnd. eexists. split.
  { unfold set. erewrite run_bind; [|by apply assertInTransaction_run].
    by apply insertEach_run. }
  split_and!; [done|done|..].
  - intros key value Hin Hmember. unfold handlerGet. rewrite Hmember.
    unfold mbind, Dictionary_bind, bind, tryGetAny, mret, Dictionary_ret, ret.
    cbn [setInternal calledAll internal]. rewrite lookup_inserted.
    assert (getEntry key (reverse element) = Some value) as ->; [|done].
    clear -Hin Hnd. induction element as [|[k v] element IH]; [by apply elem_of_nil in Hin|].
    rewrite reverse_cons, getEntry_app. apply NoDup_cons in Hnd as [Hk Hnd].
    apply elem_of_cons in Hin as [[= <- <-]|Hin].
    + destruct (getEntry key (reverse element)) as [v'|] eqn:Hv'.
      * destruct Hk. apply (list_elem_of_fmap_2 fst _ (key, v')).
        by apply elem_of_reverse, getEntry_Some.
      * simpl. by rewrite decide_True.
    + by rewrite IH.
  - intros key Hkey. cbn [setInternal calledAll internal]. rewrite lookup_inserted.
    destruct (getEntry key (reverse element)) as [v|] eqn:Hv; [|done].
    destruct Hkey. apply (list_elem_of_fmap_2 fst _ (key, v)).
    by apply elem_of_reverse, getEntry_Some.
Qed.

(** Inside a write transaction [remove] erases the keys it is given, in
    order, and does not fail, whether they have a value or not: the keys
    given are without a value afterwards and the other keys have what they
    had. A key given as a string is removed like the array of that key. *)
Theorem remove_erases (keys : list string) (this : Dictionary) :
  inTransaction this = true →
  ∃ this',
    remove (Keys keys) this = (Ok (), this') ∧
    (∀ key, keys = [key] → remove (Key key) this = (Ok (), this')) ∧
    inTransaction this' = true ∧
    calls this' = calls this ++ (TryErase <$> keys) ∧
    ∀ key, internal this' !! key = if decide (key ∈ keys) then None else internal this !! key.
Proof.
  intros Htx.
  assert (remove (Keys keys) this =
          (Ok (),
           setInternal (foldl (λ values k, delete k values) (internal this) keys)
             (calledAll (TryErase <$> keys) this))) as Hremove.
  { unfold remove. erewrite run_bind; [|by apply assertInTransaction_run].
    by apply eraseEach_run. }
  eexists. split; [exact Hremove|]. split_and!; [|done|done|].
  - by intros key ->.
  - intros key. apply lookup_erased.
Qed.

(** Outside a write transaction [set] and [remove] raise the
    transaction-state error before anything else: no call reaches the
    engine and the dictionary is as it was. *)
Theorem set_remove_outside_transaction
    (element : list (string * Value)) (key : KeyArgument) (this : Dictionary) :
  inTransaction this = false →
  set element this = (Throw TransactionStateError, this) ∧
  remove key this = (Throw TransactionStateError, this).
Proof.
  intros Htx. unfold set, remove, mbind, Dictionary_bind, bind, assertInTransaction.
  by rewrite Htx.
Qed.

(** A key that is the name of a member of the dictionary object (a method
    such as ["keys"] or ["set"]) can be written by property assignment, and
    the engine stores the value; but property access answers the member,
    without a call into the engine. *)
Theorem member_hides_key
    (prop : string) (member value : Value) (this : Dictionary) :
  members (StringKey prop) = Some member →
  inTransaction this = true →
  ∃ this',
    handlerSet (StringKey prop) value this = (Ok true, this') ∧
    internal this' !! prop = Some (toBinding value) ∧
    handlerGet (StringKey prop) this' = (Ok (Some member), this').
Proof.
  intros Hmember Htx. eexists. split_and!.
  - unfold handlerSet. erewrite run_bind; [|by apply insertAny_run]. reflexivity.
  - cbn [setInternal internal]. apply lookup_insert_eq.
  - unfold handlerGet. by rewrite Hmember.
Qed.

(** Deleting a property that is a string succeeds inside a write
    transaction, whether the key has a value or not (nothing changes when it
    has none); afterwards property access answers what [fromBinding] makes
    of the engine's answer for a missing key. *)
Theorem deleteProperty_then_get (prop : string) (this : Dictionary) :
  inTransaction this = true →
  members (StringKey prop) = None →
  ∃ this',
    deleteProperty (StringKey prop) this = (Ok true, this') ∧
    calls this' = calls this ++ [TryErase prop] ∧
    (internal this !! prop = None → internal this' = internal this) ∧
    handlerGet (StringKey prop) this'
    = (Ok (Some (fromBinding undefined)), called (TryGetAny prop) this').
Proof.
  intros Htx Hmember. eexists. split_and!.
  - unfold deleteProperty. erewrite run_bind; [|by apply tryErase_run]. reflexivity.
  - done.
  - intros Habsent. cbn [setInternal internal called]. by apply delete_id.
  - unfold handlerGet. rewrite Hmember.
    unfold mbind, Dictionary_bind, bind, tryGetAny, mret, Dictionary_ret, ret.
    cbn [setInternal internal called]. by rewrite lookup_delete_eq.
Qed.

End WithHelpers.

(** A dictionary of strings, marshalled as they are. *)
Definition colours (inTransaction : bool) : @Dictionary string :=
  {| inTransaction := inTransaction;
     internal := {[ "sky" := "blue" ]};
     calls := [] |}.

(** Its only member is the method [keys]. *)
Definition methods (prop : PropertyKey) : option string :=
  match prop with
  | StringKey "keys" => Some "function keys"
  | _ => None
  end.

Lemma set_then_get_colours :
  ∃ this',
    set id [("sea", "green")] (colours true) = (Ok (), this') ∧
    inTransaction this' = true ∧
    calls this' = [InsertAny "sea" "green"] ∧
    (∀ key value,
       (key, value) ∈ [("sea", "green")] → methods (StringKey key) = None →
       handlerGet id "" methods (StringKey key) this'
       = (Ok (Some value), called (TryGetAny key) this')) ∧
    (∀ key, key ∉ ["sea"] → internal this' !! key = internal (colours true) !! key).
Proof.
  apply (set_then_get id id "" methods [("sea", "green")] (colours true) eq_refl).
  apply NoDup_singleton.
Defined.

Lemma remove_erases_colours :
  ∃ this',
    remove (Keys ["sky"; "sea"]) (colours true) = (Ok (), this') ∧
    (∀ key, ["sky"; "sea"] = [key] → remove (Key key) (colours true) = (Ok (), this')) ∧
    inTransaction this' = true ∧
    calls this' = [TryErase "sky"; TryErase "sea"] ∧
    ∀ key, internal this' !! key =
           if decide (key ∈ ["sky"; "sea"]) then None else internal (colours true) !! key.
Proof. exact (remove_erases ["sky"; "sea"] (colours true) eq_refl). Defined.

Lemma set_remove_outside_transaction_colours :
  set id [("sea", "green")] (colours false) = (Throw TransactionStateError, colours false) ∧
  remove (Key "sky") (colours false) = (Throw TransactionStateError, colours false).
Proof.
  exact (set_remove_outside_transaction id [("sea", "green")] (Key "sky")
           (colours false) eq_refl).
Defined.

(** [dictionary.keys = "red"], then [dictionary.keys] *)
Lemma member_hides_key_colours :
  ∃ this',
    handlerSet id (StringKey "keys") "red" (colours true) = (Ok true, this') ∧
    internal this' !! "keys" = Some "red" ∧
    handlerGet id "" methods (StringKey "keys") this' = (Ok (Some "function keys"), this').
Proof.
  exact (member_hides_key id id "" methods "keys" "function keys" "red" (colours true)
           eq_refl eq_refl).
Defined.

(** [delete dictionary.sea], which has no value *)
Lemma deleteProperty_then_get_colours :
  ∃ this',
    deleteProperty (StringKey "sea") (colours true) = (Ok true, this') ∧
    calls this' = [TryErase "sea"] ∧
    (internal (colours true) !! "sea" = None → internal this' = internal (colours true)) ∧
    handlerGet id "" methods (StringKey "sea") this'
    = (Ok (Some ""), called (TryGetAny "sea") this').
Proof.
  exact (deleteProperty_then_get id "" methods "sea" (colours true) eq_refl eq_refl).
Defined.

End DictionaryMethods.
